(** * log_parser.py: the line loader and the level summary

    A shallow embedding of [src/log_parser.py] (class [LogParser] and
    [main]) and the properties of its loader and of its summary.

    Python values are modelled as follows.
    - [str] is a sequence of Unicode code points.
    - The values [json.loads] returns form the tagged union [value]; a
      dict is the list of its items in insertion order.
    - [print], [os.path.exists] and [open] are recorded as a trace of
      [event]s; exceptions are the left summand of the result.
    - [print] writes to a standard output that encodes every code point
      but, possibly, surrogates: on a text it cannot encode it raises
      UnicodeEncodeError and writes nothing.
    - What belongs to the interpreter and its library and not to this
      program is a parameter: the arithmetic of floats, the wording of
      built-in errors and the code points the standard output encodes
      ([Runtime]), and [json.loads] ([Decoder]), which returns a value,
      raises JSONDecodeError, or raises another exception.
    - A file that can be read is the list of the lines its iteration
      yields (each with its newline, which the last may lack), after
      newline translation; a file
      whose bytes do not decode as text is not modelled. *)

From Stdlib Require Import String Ascii DecimalString DecimalNat DecimalZ.
From Stdlib Require Import List ZArith NArith Arith Bool Lia.
From Stdlib Require Import Permutation Sorted.
Import ListNotations.

Set Implicit Arguments.
Set Warnings "-register-all".

(** ** Python strings *)

Definition char := N.
Definition str := list char.

(** The code points of an ASCII literal. *)
Definition lit (s : string) : str :=
  map N_of_ascii (list_ascii_of_string s).

Fixpoint str_eqb (s t : str) : bool :=
  match s, t with
  | [], [] => true
  | a :: s', b :: t' => (a =? b)%N && str_eqb s' t'
  | _, _ => false
  end.

(** [s < t] on [str]: lexicographic on code points. *)
Fixpoint str_ltb (s t : str) : bool :=
  match s, t with
  | _, [] => false
  | [], _ :: _ => true
  | a :: s', b :: t' => (a <? b)%N || ((a =? b)%N && str_ltb s' t')
  end.

(** [str.isspace] on one character: the interpreter's whitespace table
    (U+0009..U+000D, U+001C..U+0020, U+0085, U+00A0, U+1680,
    U+2000..U+200A, U+2028, U+2029, U+202F, U+205F, U+3000). *)
Definition isspace (c : char) : bool :=
  (((9 <=? c) && (c <=? 13)) || ((28 <=? c) && (c <=? 32))
   || (c =? 133) || (c =? 160) || (c =? 5760)
   || ((8192 <=? c) && (c <=? 8202))
   || (c =? 8232) || (c =? 8233) || (c =? 8239) || (c =? 8287)
   || (c =? 12288))%N.

Fixpoint lstrip (s : str) : str :=
  match s with
  | [] => []
  | c :: r => if isspace c then lstrip r else s
  end.

Definition rstrip (s : str) : str := rev (lstrip (rev s)).

(** [s.strip()] *)
Definition strip (s : str) : str := rstrip (lstrip s).

(** [not s] for a [str] *)
Definition str_not (s : str) : bool :=
  match s with [] => true | _ :: _ => false end.

(** [str(n)] for a non-negative and for any [int]. *)
Definition str_of_nat (n : nat) : str :=
  lit (NilZero.string_of_uint (Nat.to_uint n)).

Definition str_of_Z (n : Z) : str :=
  lit (NilZero.string_of_int (Z.to_int n)).

(** [s.ljust(width)], which is what the format spec [<width] does to the
    text of a value: pad on the right with spaces, never truncate. *)
Definition ljust (width : nat) (s : str) : str :=
  s ++ repeat 32%N (width - length s).

(** The lines of a text as the iteration over a file gives them, each
    with its newline; a last line may lack it. *)
Fixpoint split_from (current text : str) : list str :=
  match text with
  | [] => match current with [] => [] | _ :: _ => [current] end
  | c :: rest =>
      if (c =? 10)%N then (current ++ [c]) :: split_from [] rest
      else split_from (current ++ [c]) rest
  end.

Definition split_lines (text : str) : list str := split_from [] text.

(** Surrogates (U+D800..U+DFFF), and the texts without any. *)
Definition surrogate (c : char) : bool :=
  ((55296 <=? c) && (c <=? 57343))%N.

Definition plain (s : str) : bool :=
  forallb (fun c => negb (surrogate c)) s.

(** [os.path.basename] (POSIX): what follows the last slash. *)
Definition basename (p : str) : str :=
  fold_left (fun acc c => if (c =? 47)%N then [] else acc ++ [c]) p [].

(** ** What the interpreter provides *)

(** Exceptions. [FileNotFoundError] carries the message the source gives
    it; the others are raised by the interpreter. *)
Inductive exn :=
| FileNotFoundError (msg : str)
| OSError
| AttributeError
| TypeError
| ValueError
| RecursionError
| UnicodeEncodeError.

(** Floats (IEEE doubles) are kept abstract: the embedding only needs how
    they compare with each other and with an [int], and how they print in
    a field of width 10. The wording of the interpreter's own error
    messages is abstract as well; it holds no surrogate, and neither
    does a formatted float. The standard output encodes a code point or
    not; it encodes all that are no surrogates (UTF-8, with any error
    handler). *)
Class Runtime := {
  float : Type;
  (** do two float keys of a dict match (same object or [==]) *)
  float_eq : float -> float -> bool;
  (** [f == n] for an [int] n *)
  float_eq_int : float -> Z -> bool;
  (** [f < g], [f < n], [n < f] *)
  float_lt : float -> float -> bool;
  float_lt_int : float -> Z -> bool;
  int_lt_float : Z -> float -> bool;
  (** [format(f, "<10")] *)
  float_format10 : float -> str;
  (** [str(e)] for an exception the interpreter raised *)
  message : exn -> str;
  (** can [sys.stdout] encode this code point *)
  stdout_encodes : char -> bool;
  stdout_encodes_plain :
    forall c, surrogate c = false -> stdout_encodes c = true;
  float_format10_plain : forall f, plain (float_format10 f) = true;
  message_plain : forall e, plain (message e) = true
}.

(** Can [sys.stdout] encode this text. *)
Definition encodable {RT : Runtime} (text : str) : bool :=
  forallb stdout_encodes text.

(** [str(e)] *)
Definition str_of_exn {RT : Runtime} (e : exn) : str :=
  match e with
  | FileNotFoundError msg => msg
  | _ => message e
  end.

(** ** Effects: a trace of events and a result or an exception *)

Inductive event :=
| Exists (path : str)      (* os.path.exists(path) *)
| Open (path : str)        (* open(path, "r") *)
| Print (text : str).      (* print(text) *)

Definition io (A : Type) : Type := (list event * (exn + A))%type.

Definition ret {A} (a : A) : io A := ([], inr a).

Definition raise {A} (e : exn) : io A := ([], inl e).

Definition bind {A B} (m : io A) (k : A -> io B) : io B :=
  match m with
  | (t, inl e) => (t, inl e)
  | (t, inr a) => let (t', r) := k a in (t ++ t', r)
  end.

(** [print(text)]: the text is encoded as a whole before any of it is
    written. *)
Definition print {RT : Runtime} (text : str) : io unit :=
  if encodable text then ([Print text], inr tt)
  else ([], inl UnicodeEncodeError).

(** A pure computation that may raise, run as an action. *)
Definition lift {A} (r : exn + A) : io A := ([], r).

Declare Scope io_scope.
Delimit Scope io_scope with io.
Notation "x <- m ;; k" := (bind m (fun x => k))
  (at level 61, m at next level, right associativity) : io_scope.
Notation "m ;; k" := (bind m (fun _ => k))
  (at level 61, right associativity) : io_scope.
Open Scope io_scope.

(** The same sequencing for pure computations that may raise. *)
Definition ebind {A B} (r : exn + A) (k : A -> exn + B) : exn + B :=
  match r with
  | inl e => inl e
  | inr a => k a
  end.

(** The file system as the program sees it. *)
Inductive entry :=
| Missing                      (* the path does not exist *)
| Unreadable                   (* it exists, [open] raises an OSError *)
| File (lines : list str).     (* it exists, iterating it yields these lines *)

Definition filesystem := str -> entry.

Definition os_path_exists (fs : filesystem) (path : str) : io bool :=
  ([Exists path],
   inr (match fs path with Missing => false | _ => true end)).

Definition open (fs : filesystem) (path : str) : io (list str) :=
  ([Open path],
   match fs path with
   | File lines => inr lines
   | _ => inl OSError
   end).

Section Program.

Context {RT : Runtime}.

(** ** The values [json.loads] returns *)

Inductive value :=
| JNull
| JBool (b : bool)
| JInt (n : Z)
| JFloat (f : float)
| JString (s : str)
| JArray (items : list value)
| JObject (fields : list (str * value)).

(** [json.loads] belongs to the interpreter's library. It returns the
    decoded value or raises: [json.JSONDecodeError] on a text that is no
    JSON document, [ValueError] on an integer of more digits than the
    interpreter converts, [RecursionError] on arrays and objects nested
    deeper than it follows. *)
Inductive loads_error :=
| JSONDecodeError
| IntegerTooLong       (* a ValueError that is no JSONDecodeError *)
| NestingTooDeep.      (* a RecursionError *)

Class Decoder := { json_loads : str -> loads_error + value }.

Context {JD : Decoder}.

(** ** [LogParser._load_logs] *)

Definition warning (i : nat) : str :=
  lit "Warning: Skipping malformed JSON on line " ++ str_of_nat i.

(** The body of [for i, line in enumerate(file, 1)], from line number [i]
    on, with [parsed_logs] as built so far. [except json.JSONDecodeError]
    catches that exception only: any other leaves the loop and the
    function. *)
Fixpoint load_lines (i : nat) (file : list str) (parsed_logs : list value)
  : io (list value) :=
  match file with
  | [] => ret parsed_logs
  | line :: rest =>
      if str_not (strip line) then load_lines (S i) rest parsed_logs
      else
        match json_loads line with
        | inr v => load_lines (S i) rest (parsed_logs ++ [v])
        | inl JSONDecodeError =>
            print (warning i) ;; load_lines (S i) rest parsed_logs
        | inl IntegerTooLong => raise ValueError
        | inl NestingTooDeep => raise RecursionError
        end
  end.

Definition _load_logs (fs : filesystem) (file_path : str) : io (list value) :=
  file <- open fs file_path ;;
  load_lines 1 file [].


(** ** [LogParser.display_summary] *)

(** [d.get(key)] on the items of a dict, in insertion order. *)
Fixpoint dict_get (fields : list (str * value)) (key : str) : option value :=
  match fields with
  | [] => None
  | (k, v) :: rest => if str_eqb k key then Some v else dict_get rest key
  end.

(** [log.get("level", "UNKNOWN")]: only a dict has a [get]. *)
Definition get_level (log : value) : exn + value :=
  match log with
  | JObject fields =>
      inr (match dict_get fields (lit "level") with
           | Some v => v
           | None => JString (lit "UNKNOWN")
           end)
  | _ => inl AttributeError
  end.

(** Lists and dicts have no hash. *)
Definition hashable (v : value) : bool :=
  match v with
  | JArray _ | JObject _ => false
  | _ => true
  end.

(** Numbers: [bool] is a subclass of [int]. *)
Inductive number :=
| NInt (n : Z)
| NFloat (f : float).

Definition as_number (v : value) : option number :=
  match v with
  | JBool b => Some (NInt (if b then 1 else 0))
  | JInt n => Some (NInt n)
  | JFloat f => Some (NFloat f)
  | _ => None
  end.

Definition number_eq (x y : number) : bool :=
  match x, y with
  | NInt a, NInt b => (a =? b)%Z
  | NInt a, NFloat g => float_eq_int g a
  | NFloat f, NInt b => float_eq_int f b
  | NFloat f, NFloat g => float_eq f g
  end.

Definition number_lt (x y : number) : bool :=
  match x, y with
  | NInt a, NInt b => (a <? b)%Z
  | NInt a, NFloat g => int_lt_float a g
  | NFloat f, NInt b => float_lt_int f b
  | NFloat f, NFloat g => float_lt f g
  end.

(** Do two hashable values match as keys of a dict. *)
Definition key_eq (a b : value) : bool :=
  match as_number a, as_number b with
  | Some x, Some y => number_eq x y
  | _, _ =>
      match a, b with
      | JNull, JNull => true
      | JString s, JString t => str_eqb s t
      | _, _ => false
      end
  end.

(** [a < b] on hashable values: numbers with numbers, [str] with [str],
    anything else is a [TypeError]. *)
Definition key_lt (a b : value) : exn + bool :=
  match as_number a, as_number b with
  | Some x, Some y => inr (number_lt x y)
  | _, _ =>
      match a, b with
      | JString s, JString t => inr (str_ltb s t)
      | _, _ => inl TypeError
      end
  end.

(** A [Counter]: the items of the dict, in insertion order. *)
Definition Counter := list (value * nat).

(** [c[key] += 1] *)
Fixpoint counter_incr (c : Counter) (key : value) : Counter :=
  match c with
  | [] => [(key, 1)]
  | (k, n) :: rest =>
      if key_eq k key then (k, S n) :: rest
      else (k, n) :: counter_incr rest key
  end.

(** [c[key]], 0 for a key that is not there. *)
Fixpoint counter_get (c : Counter) (key : value) : nat :=
  match c with
  | [] => 0
  | (k, n) :: rest => if key_eq k key then n else counter_get rest key
  end.

(** [Counter(log.get("level", "UNKNOWN") for log in logs)], from the
    counter [c]: one record at a time, its level read and then hashed. *)
Fixpoint count_levels (logs : list value) (c : Counter) : exn + Counter :=
  match logs with
  | [] => inr c
  | log :: rest =>
      ebind (get_level log) (fun level =>
        if hashable level then count_levels rest (counter_incr c level)
        else inl TypeError)
  end.

Definition level_counts (logs : list value) : exn + Counter :=
  count_levels logs [].

(** [(k1, n1) < (k2, n2)] on tuples: the first components that differ
    decide. *)
Definition item_lt (x y : value * nat) : exn + bool :=
  if key_eq (fst x) (fst y) then inr (snd x <? snd y)
  else key_lt (fst x) (fst y).

(** [sorted]: an insertion sort that asks only [x < y]. Where [<] is a
    total order on the keys, every sort returns the same list; where two
    keys cannot be compared, every sort meets such a pair and raises the
    [TypeError] of [<]. Where [<] answers without being an order (a NaN
    among floats) the order of the result is the sort's own, and the
    properties below use of it only that it is a permutation. *)
Fixpoint insert (x : value * nat) (l : list (value * nat))
  : exn + list (value * nat) :=
  match l with
  | [] => inr [x]
  | y :: rest =>
      ebind (item_lt x y) (fun b =>
        if b then inr (x :: y :: rest)
        else ebind (insert x rest) (fun r => inr (y :: r)))
  end.

Fixpoint sort_into (acc l : list (value * nat)) : exn + list (value * nat) :=
  match l with
  | [] => inr acc
  | x :: rest => ebind (insert x acc) (fun acc' => sort_into acc' rest)
  end.

Definition sorted (l : list (value * nat)) : exn + list (value * nat) :=
  sort_into [] l.

(** [format(level, "<10")] *)
Definition format10 (level : value) : exn + str :=
  match level with
  | JString s => inr (ljust 10 s)
  | JInt n => inr (ljust 10 (str_of_Z n))
  | JBool b => inr (ljust 10 (str_of_Z (if b then 1 else 0)))
  | JFloat f => inr (float_format10 f)
  | JNull | JArray _ | JObject _ => inl TypeError
  end.

(** The rule is fifty times U+2501; the header starts with a newline and
    U+1F4CA and names the file by [os.path.basename]. *)
Definition rule : str := repeat 9473%N 50.

Definition header (file_path : str) : str :=
  [10; 128202]%N ++ lit " Log Level Summary for '" ++ basename file_path
  ++ lit "'".

(** [f"{level:<10}: {count}"], with [text] the formatted level, and
    [f"{'Total':<10}: {total_logs}\n"]. *)
Definition level_line (text : str) (count : nat) : str :=
  text ++ lit ": " ++ str_of_nat count.

Definition total_line (total_logs : nat) : str :=
  level_line (ljust 10 (lit "Total")) total_logs ++ [10%N].

Definition no_entries : str := lit "No valid log entries found.".

(** The loop over the sorted items; it returns [total_logs]. *)
Fixpoint print_levels (items : list (value * nat)) (total_logs : nat)
  : io nat :=
  match items with
  | [] => ret total_logs
  | (level, count) :: rest =>
      text <- lift (format10 level) ;;
      print (level_line text count) ;;
      print_levels rest (total_logs + count)
  end.

(** [display_summary]: the counter is built before the header is
    printed, and the items are sorted after it. *)
Definition display_summary (file_path : str) (logs : list value) : io unit :=
  match logs with
  | [] => print no_entries
  | _ :: _ =>
      counts <- lift (level_counts logs) ;;
      print (header file_path) ;;
      print rule ;;
      items <- lift (sorted counts) ;;
      total_logs <- print_levels items 0 ;;
      print rule ;;
      print (total_line total_logs)
  end.

(** ** [LogParser.__init__] and [main] *)

Record LogParser := { file_path : str; logs : list value }.

(** [__init__]: the check of [os.path.exists] comes first, then
    [self.logs = self._load_logs()]. *)
Definition LogParser_init (fs : filesystem) (path : str) : io LogParser :=
  found <- os_path_exists fs path ;;
  if negb found
  then raise (FileNotFoundError (lit "File doesn't exists " ++ path))
  else
    parsed <- _load_logs fs path ;;
    ret {| file_path := path; logs := parsed |}.

(** [try: ... except FileNotFoundError as e: ... except Exception as e: ...] *)
Definition try_except {A} (body : io A) (handler : exn -> io A) : io A :=
  match body with
  | (t, inl e) => let (t', r) := handler e in (t ++ t', r)
  | (t, inr a) => (t, inr a)
  end.

(** U+274C, the mark before an error message. *)
Definition cross : str := [10060%N].

(** [main], after [argparse] has read [filename] from the command line. *)
Definition main (fs : filesystem) (filename : str) : io unit :=
  try_except
    (parser <- LogParser_init fs filename ;;
     display_summary (file_path parser) (logs parser))
    (fun e =>
       match e with
       | FileNotFoundError _ => print (cross ++ lit " " ++ str_of_exn e)
       | _ => print (cross ++ lit " An unexpected error occurred: "
                      ++ str_of_exn e)
       end).

(** ** The loader and the summary, said in terms of the input

    These are the notions the properties below are stated with. *)

(** A line of whitespace only. *)
Definition blank (line : str) : bool := forallb isspace line.

(** What one line adds to the collection. *)
Definition decode_line (line : str) : list value :=
  if blank line then []
  else match json_loads line with
       | inr v => [v]
       | inl _ => []
       end.

(** The decoded values of the non-blank lines that decode, in file order. *)
Definition decoded (file : list str) : list value :=
  flat_map decode_line file.

(** A non-blank line that decodes. *)
Definition valid (line : str) : bool :=
  negb (blank line)
  && match json_loads line with inr _ => true | inl _ => false end.

(** A non-blank line on which [json.loads] raises JSONDecodeError. *)
Definition malformed (line : str) : bool :=
  negb (blank line)
  && match json_loads line with inl JSONDecodeError => true | _ => false end.

(** The exception a line ends the load with, if it does: a non-blank
    line on which [json.loads] raises something else. *)
Definition aborts (line : str) : option exn :=
  if blank line then None
  else match json_loads line with
       | inl IntegerTooLong => Some ValueError
       | inl NestingTooDeep => Some RecursionError
       | _ => None
       end.

(** The exception of the first line that ends the load. *)
Fixpoint first_abort (file : list str) : option exn :=
  match file with
  | [] => None
  | line :: rest =>
      match aborts line with
      | Some e => Some e
      | None => first_abort rest
      end
  end.

(** The lines before the first line that ends the load. *)
Fixpoint read (file : list str) : list str :=
  match file with
  | [] => []
  | line :: rest =>
      match aborts line with
      | Some _ => []
      | None => line :: read rest
      end
  end.

(** What the loader ends with: the collection, or the exception. *)
Definition loaded (file : list str) : exn + list value :=
  match first_abort file with
  | Some e => inl e
  | None => inr (decoded file)
  end.

(** The numbers of the malformed lines, the first line having number [i]. *)
Fixpoint malformed_numbers (i : nat) (file : list str) : list nat :=
  match file with
  | [] => []
  | line :: rest =>
      if malformed line then i :: malformed_numbers (S i) rest
      else malformed_numbers (S i) rest
  end.

Definition warnings (numbers : list nat) : list event :=
  map (fun n => Print (warning n)) numbers.

Definition unknown : str := lit "UNKNOWN".

(** The level of a record that is a dict. *)
Definition level_of (fields : list (str * value)) : value :=
  match dict_get fields (lit "level") with
  | Some v => v
  | None => JString (lit "UNKNOWN")
  end.

Definition is_dict (v : value) : bool :=
  match v with JObject _ => true | _ => false end.

(** A dict whose level is absent or is a [str]; the name it is counted
    under. *)
Definition level_name (log : value) : option str :=
  match log with
  | JObject fields =>
      match level_of fields with
      | JString s => Some s
      | _ => None
      end
  | _ => None
  end.

(** A dict whose level is a number (an [int], a [bool] or a float). *)
Definition numeric_level (log : value) : bool :=
  match log with
  | JObject fields =>
      match dict_get fields (lit "level") with
      | Some v => match as_number v with Some _ => true | None => false end
      | None => false
      end
  | _ => false
  end.

(** How many records are counted under the name [s]. *)
Definition occurrences (s : str) (logs : list value) : nat :=
  List.length (filter (fun log => match level_name log with
                                  | Some t => str_eqb t s
                                  | None => false
                                  end) logs).

Definition total (c : Counter) : nat := list_sum (map snd c).

(** The text of the Total line for the number [n]. *)
Definition total_text (n : nat) : str :=
  lit "Total     : " ++ str_of_nat n ++ [10%N].

(** An item whose line can be printed: the key has the format and the
    standard output encodes the text. *)
Definition printable (item : value * nat) : bool :=
  match format10 (fst item) with
  | inr text => encodable text
  | inl _ => false
  end.

(** What [display_summary] does once the counter is built and sorted. *)
Definition print_report (path : str) (items : list (value * nat)) : io unit :=
  print (header path) ;;
  print rule ;;
  total_logs <- print_levels items 0 ;;
  print rule ;;
  print (total_line total_logs).

(** A dict whose level is a name that the standard output encodes. *)
Definition printable_name (log : value) : Prop :=
  exists s, level_name log = Some s /\ encodable s = true.

(** A dict whose level can be formatted and printed. *)
Definition printable_level (log : value) : bool :=
  match log with
  | JObject fields => printable (level_of fields, 0)
  | _ => false
  end.

Definition newline_free (s : str) : Prop := ~ In 10%N s.

(** The lines the loop prints for the items it can format. *)
Definition rendered (items : list (value * nat)) : list event :=
  flat_map (fun item =>
              match format10 (fst item) with
              | inr text => [Print (level_line text (snd item))]
              | inl _ => []
              end) items.

(** The whole report for the sorted [items]. *)
Definition report (path : str) (items : list (value * nat)) : list event :=
  Print (header path) :: Print rule :: rendered items
  ++ [Print rule; Print (total_line (total items))].

(** The order of the report on names, and the line of a name. *)
Definition name_lt (a b : str * nat) : Prop :=
  str_ltb (fst a) (fst b) = true.

Definition name_line (item : str * nat) : event :=
  Print (level_line (ljust 10 (fst item)) (snd item)).

Definition is_number (v : value) : bool :=
  match as_number v with Some _ => true | None => false end.

Definition number_keys (c : list (value * nat)) : Prop :=
  Forall (fun item => is_number (fst item) = true) c.

(** A counter whose keys are the names [s], as [str] values. *)
Definition named (l : list (str * nat)) : list (value * nat) :=
  map (fun item => (JString (fst item), snd item)) l.

(** ** Further notions for the properties of the whole program *)

(** A record the counter takes: a dict whose level has a hash. *)
Definition countable (log : value) : bool :=
  match log with
  | JObject fields => hashable (level_of fields)
  | _ => false
  end.

(** The kinds of keys: [<] compares two keys of the kind [Text] and two
    of the kind [Number], and no others. *)
Inductive kind := Text | Number | Nothing | Unhashable.

Definition kind_of (v : value) : kind :=
  match v with
  | JString _ => Text
  | JBool _ | JInt _ | JFloat _ => Number
  | JNull => Nothing
  | JArray _ | JObject _ => Unhashable
  end.

Definition same_kind (l : list (value * nat)) : Prop :=
  forall x y, In x l -> In y l -> kind_of (fst x) = kind_of (fst y).

(** The message of the FileNotFoundError of [__init__] and the line
    [main] prints for it. *)
Definition not_found (path : str) : str :=
  lit "File doesn't exists " ++ path.

Definition not_found_line (path : str) : str :=
  cross ++ lit " " ++ not_found path.

(** The line [main] prints for an exception that is no
    [FileNotFoundError], and what [main] adds to the output of a summary
    that ended with the result [r]. *)
Definition unexpected (e : exn) : str :=
  cross ++ lit " An unexpected error occurred: " ++ str_of_exn e.

Definition error_line (r : exn + unit) : list event :=
  match r with
  | inl e => [Print (unexpected e)]
  | inr _ => []
  end.

Definition is_print (e : event) : bool :=
  match e with Print _ => true | _ => false end.

Definition no_slash (name : str) : Prop := Forall (fun c => c <> 47%N) name.

End Program.

Arguments value {RT}.
Arguments Decoder {RT}.

(** ** Concrete inputs

    A runtime and a decoder to run the program on. The example files hold
    no float, so the float type has no inhabitant here; the standard
    output is UTF-8 with the error handler [strict], which encodes no
    surrogate. The decoder knows the lines of the example files and
    treats them as [json.loads] does; of the other lines it takes two
    as [json.loads] does, with an exception that is not
    [JSONDecodeError], and rejects the rest as malformed. *)

Definition no_float : Runtime := {|
  float := Empty_set;
  float_eq := fun _ _ => false;
  float_eq_int := fun _ _ => false;
  float_lt := fun _ _ => false;
  float_lt_int := fun _ _ => false;
  int_lt_float := fun _ _ => false;
  float_format10 := fun _ => [];
  message := fun _ => [];
  stdout_encodes := fun c => negb (surrogate c);
  stdout_encodes_plain := fun c H => f_equal negb H;
  float_format10_plain := fun f : Empty_set => match f with end;
  message_plain := fun _ => eq_refl
|}.

#[local] Existing Instance no_float.

(** A JSON string literal: the text between double quotes. *)
Definition quoted (s : string) : str := [34%N] ++ lit s ++ [34%N].

(** The line [{"key": text}], with its newline. *)
Definition object_line (key : string) (text : str) : str :=
  lit "{" ++ quoted key ++ lit ": " ++ text ++ lit "}" ++ [10%N].

Definition line_info : str := object_line "level" (quoted "INFO").
Definition line_error : str := object_line "level" (quoted "ERROR").
Definition line_msg : str := object_line "msg" (quoted "no level field").
Definition line_null : str := object_line "level" (lit "null").
Definition line_9 : str := object_line "level" (lit "9").
Definition line_10 : str := object_line "level" (lit "10").
Definition line_42 : str := lit "42" ++ [10%N].
Definition line_bad : str := lit "not-json" ++ [10%N].
Definition line_blank : str := lit "  " ++ [10%N].
Definition line_odd : str := object_line "level" (quoted "\ud800").

(** A line of 100000 opening brackets, which is no JSON document and on
    which [json.loads] raises RecursionError, and the line of an integer
    of 4301 digits, a JSON document on which it raises ValueError. *)
Definition line_deep : str := repeat 91%N (N.to_nat 100000) ++ [10%N].
Definition line_digits : str := repeat 49%N (N.to_nat 4301) ++ [10%N].

Definition record (key : string) (v : value) : value :=
  JObject [(lit key, v)].

Definition sample_table : list (str * value) :=
  [ (line_info, record "level" (JString (lit "INFO")));
    (line_error, record "level" (JString (lit "ERROR")));
    (line_msg, record "msg" (JString (lit "no level field")));
    (line_null, record "level" JNull);
    (line_9, record "level" (JInt 9));
    (line_10, record "level" (JInt 10));
    (line_42, JInt 42);
    (line_odd, record "level" (JString [55296%N])) ].

Definition sample_loads (line : str) : loads_error + value :=
  match dict_get sample_table line with
  | Some v => inr v
  | None =>
      if str_eqb line line_deep then inl NestingTooDeep
      else if str_eqb line line_digits then inl IntegerTooLong
      else inl JSONDecodeError
  end.

Definition sample_decoder : Decoder := {| json_loads := sample_loads |}.

#[local] Existing Instance sample_decoder.

(** Scenario A of the specification, and a file with every kind of line. *)
Definition file_a : list str := [line_info; line_error; line_info].
Definition file_b : list str := [line_blank; line_bad].
Definition file_mixed : list str :=
  [line_info; line_bad; line_blank; line_error; line_bad].

Definition path_a : str := lit "logs/a.jsonl".

Definition logs_odd : list value := [record "level" (JString [55296%N])].

(** Collections: the one of [file_a], and three the loader returns for the
    lines [42], [{"level": null}] and [{"level": 10}], [{"level": 9}]. *)
Definition info : value := record "level" (JString (lit "INFO")).
Definition error : value := record "level" (JString (lit "ERROR")).
Definition logs_a : list value := [info; error; info].
Definition counts_a : Counter := [(JString (lit "INFO"), 2); (JString (lit "ERROR"), 1)].
Definition logs_42 : list value := [JInt 42].
Definition logs_null : list value := [record "level" JNull].
Definition logs_10_9 : list value :=
  [record "level" (JInt 10); record "level" (JInt 9)].

Definition disk (lines : list str) : filesystem :=
  fun path => if str_eqb path path_a then File lines else Missing.

(** A disk whose file exists and cannot be opened, and collections that
    stop the summary: a level that is a list, and a level that is a
    number beside a record without level. *)
Definition disk_locked : filesystem :=
  fun path => if str_eqb path path_a then Unreadable else Missing.

Definition logs_list : list value := [info; record "level" (JArray []); JInt 42].
Definition logs_mixed : list value :=
  [record "msg" (JString (lit "no level field")); record "level" (JInt 3)].

(** * Properties *)

Unset Implicit Arguments.

Section Properties.

Context {RT : Runtime} {JD : Decoder}.

(** ** Strings *)

Lemma str_eqb_eq (s t : str) : str_eqb s t = true <-> s = t.
Proof.
  revert t; induction s as [|a s IH]; intros [|b t]; simpl;
    try (split; [discriminate | congruence]); try tauto.
  rewrite andb_true_iff, N.eqb_eq, IH.
  split; [intros [-> ->]; reflexivity | intros H; inversion H; auto].
Qed.

Lemma str_eqb_refl (s : str) : str_eqb s s = true.
Proof. now apply str_eqb_eq. Qed.

Lemma str_eqb_neq (s t : str) : str_eqb s t = false <-> s <> t.
Proof.
  rewrite <- str_eqb_eq. destruct (str_eqb s t); split; congruence.
Qed.

Lemma forallb_rev {A} (f : A -> bool) (l : list A) :
  forallb f (rev l) = forallb f l.
Proof.
  induction l as [|a l IH]; simpl; [reflexivity|].
  rewrite forallb_app, IH; simpl. rewrite andb_true_r. apply andb_comm.
Qed.

Lemma lstrip_blank (s : str) : forallb isspace s = true -> lstrip s = [].
Proof.
  induction s as [|c s IH]; simpl; [reflexivity|].
  destruct (isspace c); simpl; [exact IH | discriminate].
Qed.

Lemma lstrip_not_blank (s : str) :
  forallb isspace s = false -> forallb isspace (lstrip s) = false.
Proof.
  induction s as [|c s IH]; simpl; [discriminate|].
  destruct (isspace c) eqn:E; simpl; [exact IH | now rewrite E].
Qed.

(** [not line.strip()] holds of the lines of whitespace only. *)
Lemma strip_blank (line : str) : str_not (strip line) = blank line.
Proof.
  unfold strip, rstrip, blank.
  destruct (forallb isspace line) eqn:E.
  - rewrite (lstrip_blank line E). reflexivity.
  - apply lstrip_not_blank in E. rewrite <- forallb_rev in E.
    apply lstrip_not_blank in E.
    destruct (lstrip (rev (lstrip line))) as [|c r]; [discriminate|].
    simpl. destruct (rev r ++ [c]) eqn:F; [|reflexivity].
    now apply app_eq_nil in F.
Qed.

Lemma lit_inj (s t : string) : lit s = lit t -> s = t.
Proof.
  unfold lit. intros H.
  rewrite <- (string_of_list_ascii_of_string s),
          <- (string_of_list_ascii_of_string t).
  f_equal. revert H.
  generalize (list_ascii_of_string s) (list_ascii_of_string t).
  induction l as [|a l IH]; intros [|b m]; simpl; try discriminate; auto.
  intros H; inversion H as [[Hab Hlm]]. f_equal; [|now apply IH].
  rewrite <- (ascii_N_embedding a), <- (ascii_N_embedding b). now rewrite Hab.
Qed.

Lemma str_of_nat_inj (n m : nat) : str_of_nat n = str_of_nat m -> n = m.
Proof.
  unfold str_of_nat. intros H. apply lit_inj in H.
  assert (parse : forall k, option_map Nat.of_uint
            (NilZero.uint_of_string (NilZero.string_of_uint (Nat.to_uint k)))
            = Some k).
  { intros k. destruct (Nat.to_uint k) eqn:E;
      try (rewrite NilZero.usu by discriminate; simpl;
           rewrite <- E; now rewrite DecimalNat.Unsigned.of_to).
    rewrite NilZero.usu_nil. simpl.
    rewrite <- (DecimalNat.Unsigned.of_to k), E. reflexivity. }
  pose proof (parse n) as Hn. rewrite H, parse in Hn. congruence.
Qed.

Lemma warning_inj (n m : nat) : warning n = warning m -> n = m.
Proof.
  unfold warning. intros H. apply app_inv_head in H. now apply str_of_nat_inj.
Qed.

(** ** What the standard output encodes *)

Lemma encodable_app (a b : str) :
  encodable (a ++ b) = encodable a && encodable b.
Proof. apply forallb_app. Qed.

Lemma plain_app (a b : str) : plain (a ++ b) = plain a && plain b.
Proof. apply forallb_app. Qed.

Lemma plain_encodable (s : str) : plain s = true -> encodable s = true.
Proof.
  unfold plain, encodable. rewrite !forallb_forall. intros H c Hc.
  apply stdout_encodes_plain. specialize (H c Hc).
  now destruct (surrogate c).
Qed.

Lemma plain_lit (s : string) : plain (lit s) = true.
Proof.
  unfold lit, plain. rewrite forallb_forall. intros c Hc.
  apply in_map_iff in Hc. destruct Hc as (a & <- & _).
  pose proof (N_ascii_bounded a) as Hb. unfold surrogate.
  replace (55296 <=? N_of_ascii a)%N with false; [reflexivity|].
  symmetry. apply N.leb_gt. lia.
Qed.

Lemma plain_repeat (c : char) (n : nat) :
  surrogate c = false -> plain (repeat c n) = true.
Proof.
  intros H. induction n as [|n IH]; simpl; [reflexivity|].
  now rewrite H, IH.
Qed.

Lemma plain_str_of_nat (n : nat) : plain (str_of_nat n) = true.
Proof. apply plain_lit. Qed.

Lemma plain_warning (i : nat) : plain (warning i) = true.
Proof.
  unfold warning. now rewrite plain_app, plain_lit, plain_str_of_nat.
Qed.

Lemma plain_total_line (n : nat) : plain (total_line n) = true.
Proof.
  unfold total_line, level_line, ljust.
  rewrite !plain_app, !plain_lit, plain_str_of_nat.
  now rewrite plain_repeat.
Qed.

Lemma plain_rule : plain rule = true.
Proof. now apply plain_repeat. Qed.

Lemma encodable_ljust (s : str) : encodable (ljust 10 s) = encodable s.
Proof.
  unfold ljust. rewrite encodable_app.
  rewrite (plain_encodable (repeat 32%N _)) by now apply plain_repeat.
  apply andb_true_r.
Qed.

Lemma encodable_level_line (text : str) (count : nat) :
  encodable (level_line text count) = encodable text.
Proof.
  unfold level_line. rewrite !encodable_app.
  rewrite (plain_encodable (lit ": ")) by apply plain_lit.
  rewrite (plain_encodable (str_of_nat count)) by apply plain_str_of_nat.
  now rewrite !andb_true_r.
Qed.

Lemma encodable_header (path : str) :
  encodable (header path) = encodable (basename path).
Proof.
  unfold header. rewrite !encodable_app.
  rewrite (plain_encodable (lit " Log Level Summary for '")) by apply plain_lit.
  rewrite (plain_encodable (lit "'")) by apply plain_lit.
  rewrite (plain_encodable [10; 128202]%N) by reflexivity.
  now rewrite andb_true_r.
Qed.

Lemma encodable_not_found_line (path : str) :
  encodable (not_found_line path) = encodable path.
Proof.
  unfold not_found_line, not_found. rewrite !encodable_app.
  rewrite (plain_encodable cross) by reflexivity.
  now rewrite !(plain_encodable (lit _)) by apply plain_lit.
Qed.

Lemma print_ok (text : str) :
  encodable text = true -> print text = ([Print text], inr tt).
Proof. intros H. unfold print. now rewrite H. Qed.

Lemma print_fails (text : str) :
  encodable text = false -> print text = ([], inl UnicodeEncodeError).
Proof. intros H. unfold print. now rewrite H. Qed.

Lemma print_plain (text : str) :
  plain text = true -> print text = ([Print text], inr tt).
Proof. intros H. now apply print_ok, plain_encodable. Qed.

(** The line for an exception of the interpreter can be printed. *)
Lemma print_unexpected (e : exn) :
  (forall msg, e <> FileNotFoundError msg) ->
  print (unexpected e) = ([Print (unexpected e)], inr tt).
Proof.
  intros H. apply print_plain. unfold unexpected.
  rewrite !plain_app, plain_lit.
  replace (str_of_exn e) with (message e)
    by (destruct e; try reflexivity; now destruct (H msg)).
  now rewrite message_plain.
Qed.

Lemma bind_lift_inr {A B} (a : A) (k : A -> io B) :
  bind (lift (inr a)) k = k a.
Proof. unfold bind, lift. now destruct (k a). Qed.

(** The Total line, letter by letter. *)
Lemma total_line_text (n : nat) : total_line n = total_text n.
Proof. reflexivity. Qed.


(** ** The loader *)

Lemma in_warnings (n : nat) (numbers : list nat) :
  In (Print (warning n)) (warnings numbers) <-> In n numbers.
Proof.
  unfold warnings. rewrite in_map_iff. split.
  - intros (m & H & Hin).
    assert (Hw : warning m = warning n) by congruence.
    apply warning_inj in Hw. now subst.
  - intros H. now exists n.
Qed.

Lemma malformed_numbers_range (i : nat) (file : list str) (n : nat) :
  In n (malformed_numbers i file) -> i <= n < i + List.length file.
Proof.
  revert i; induction file as [|line rest IH]; simpl; intros i H; [easy|].
  destruct (malformed line); simpl in H.
  - destruct H as [<- | H]; [lia | apply IH in H; lia].
  - apply IH in H; lia.
Qed.

Lemma malformed_numbers_app (i : nat) (pre post : list str) :
  malformed_numbers i (pre ++ post)
  = malformed_numbers i pre ++ malformed_numbers (i + List.length pre) post.
Proof.
  revert i; induction pre as [|line rest IH]; simpl; intros i.
  - now rewrite Nat.add_0_r.
  - rewrite IH, <- Nat.add_succ_comm. now destruct (malformed line).
Qed.

Lemma decoded_app (pre post : list str) :
  decoded (pre ++ post) = decoded pre ++ decoded post.
Proof. apply flat_map_app. Qed.

Lemma warnings_app (l1 l2 : list nat) :
  warnings (l1 ++ l2) = warnings l1 ++ warnings l2.
Proof. apply map_app. Qed.

Lemma malformed_numbers_split (i : nat) (pre post : list str) (line : str) :
  malformed_numbers i (pre ++ line :: post)
  = malformed_numbers i pre
    ++ (if malformed line then [i + List.length pre] else [])
    ++ malformed_numbers (S (i + List.length pre)) post.
Proof.
  rewrite malformed_numbers_app. cbn [malformed_numbers].
  now destruct (malformed line).
Qed.

Lemma decoded_split (pre post : list str) (line : str) :
  decoded (pre ++ line :: post)
  = decoded pre ++ decode_line line ++ decoded post.
Proof. now rewrite decoded_app. Qed.

Lemma aborts_cases (line : str) (e : exn) :
  aborts line = Some e ->
  blank line = false /\ malformed line = false /\ decode_line line = []
  /\ (e = ValueError \/ e = RecursionError).
Proof.
  unfold aborts, malformed, decode_line.
  destruct (blank line); [discriminate|].
  destruct (json_loads line) as [[| |]|v]; intros H; inversion H; auto.
Qed.

Lemma first_abort_cases (file : list str) (e : exn) :
  first_abort file = Some e -> e = ValueError \/ e = RecursionError.
Proof.
  induction file as [|line rest IH]; simpl; [discriminate|].
  destruct (aborts line) as [e'|] eqn:E; [|exact IH].
  intros H; inversion H; subst. now apply aborts_cases in E.
Qed.

Lemma first_abort_app (pre post : list str) :
  first_abort (pre ++ post)
  = match first_abort pre with
    | Some e => Some e
    | None => first_abort post
    end.
Proof.
  induction pre as [|line rest IH]; simpl; [reflexivity|].
  now destruct (aborts line).
Qed.

Lemma read_clean (file : list str) :
  first_abort file = None -> read file = file.
Proof.
  induction file as [|line rest IH]; simpl; [reflexivity|].
  destruct (aborts line); [discriminate|]. intros H. now rewrite IH.
Qed.

Lemma read_app (pre post : list str) :
  read (pre ++ post)
  = match first_abort pre with
    | Some _ => read pre
    | None => pre ++ read post
    end.
Proof.
  induction pre as [|line rest IH]; simpl; [reflexivity|].
  destruct (aborts line); [reflexivity|]. rewrite IH.
  now destruct (first_abort rest).
Qed.

(** The lines read are the lines before the first one that ends the
    load. *)
Lemma read_prefix (file : list str) :
  first_abort (read file) = None
  /\ match first_abort file with
     | None => read file = file
     | Some e => exists line post,
         file = read file ++ line :: post /\ aborts line = Some e
     end.
Proof.
  induction file as [|line rest [IH1 IH2]]; simpl; [auto|].
  destruct (aborts line) as [e|] eqn:E; simpl.
  - split; [reflexivity|]. now exists line, rest.
  - rewrite E. split; [assumption|].
    destruct (first_abort rest) as [e|].
    + destruct IH2 as (l & post & Hf & Hl). exists l, post.
      split; [now rewrite <- Hf | assumption].
    + now rewrite IH2.
Qed.

Lemma print_warning (i : nat) :
  print (warning i) = ([Print (warning i)], inr tt).
Proof. apply print_plain, plain_warning. Qed.

(** The loop prints the warnings of the malformed lines it reads, in
    order; it ends with the exception of the first line that raises
    another one, or else with the decoded values appended, in order. *)
Lemma load_lines_spec (i : nat) (file : list str) (parsed_logs : list value) :
  load_lines i file parsed_logs
  = (warnings (malformed_numbers i (read file)),
     match first_abort file with
     | Some e => inl e
     | None => inr (parsed_logs ++ decoded file)
     end).
Proof.
  revert i parsed_logs; induction file as [|line rest IH]; intros i acc.
  - simpl. now rewrite app_nil_r.
  - cbn [load_lines first_abort read]. unfold decoded. cbn [flat_map].
    fold (decoded rest). unfold aborts, decode_line.
    rewrite strip_blank. destruct (blank line) eqn:Hb.
    + cbn [malformed_numbers]. unfold malformed. rewrite Hb. simpl.
      apply IH.
    + destruct (json_loads line) as [[| |]|v] eqn:Hj.
      * rewrite print_warning, IH. cbn [malformed_numbers].
        unfold malformed. rewrite Hb, Hj. reflexivity.
      * reflexivity.
      * reflexivity.
      * cbn [malformed_numbers]. unfold malformed. rewrite Hb, Hj. simpl.
        rewrite IH, <- app_assoc. reflexivity.
Qed.

Lemma load_lines_loaded (i : nat) (file : list str) :
  load_lines i file []
  = (warnings (malformed_numbers i (read file)), loaded file).
Proof. now rewrite load_lines_spec. Qed.

Lemma _load_logs_spec (fs : filesystem) (path : str) (file : list str) :
  fs path = File file ->
  _load_logs fs path
  = (Open path :: warnings (malformed_numbers 1 (read file)), loaded file).
Proof.
  intros H. unfold _load_logs, open. rewrite H.
  cbn [bind]. now rewrite load_lines_loaded.
Qed.

Lemma malformed_numbers_skip (i : nat) (pre post : list str) (line : str) :
  let n := i + List.length pre in
  ~ In n (malformed_numbers i pre)
  /\ ~ In n (malformed_numbers (S n) post).
Proof.
  split; intros H; apply malformed_numbers_range in H; lia.
Qed.

Lemma loaded_skip (pre post : list str) (line : str) :
  aborts line = None -> decode_line line = [] ->
  loaded (pre ++ line :: post) = loaded (pre ++ post).
Proof.
  intros Ha Hd. unfold loaded.
  rewrite !first_abort_app. simpl. rewrite Ha.
  now rewrite decoded_split, Hd, decoded_app.
Qed.

Lemma loaded_app (pre post : list str) :
  loaded (pre ++ post)
  = match loaded pre, loaded post with
    | inl e, _ => inl e
    | inr _, inl e => inl e
    | inr l1, inr l2 => inr (l1 ++ l2)
    end.
Proof.
  unfold loaded. rewrite first_abort_app, decoded_app.
  destruct (first_abort pre), (first_abort post); reflexivity.
Qed.

Lemma read_length (file : list str) :
  List.length (read file) <= List.length file.
Proof.
  induction file as [|line rest IH]; simpl; [lia|].
  destruct (aborts line); simpl; lia.
Qed.

Lemma read_warnings_range (i : nat) (file : list str) (n : nat) :
  In (Print (warning n)) (warnings (malformed_numbers i (read file))) ->
  i <= n < i + List.length file.
Proof.
  rewrite in_warnings. intros H. apply malformed_numbers_range in H.
  pose proof (read_length file). lia.
Qed.

(** A line that neither ends the load nor is malformed leaves the trace
    of the loader as it is without the line, the numbers after it
    apart. *)
Lemma load_trace_split (pre post : list str) (line : str) :
  aborts line = None ->
  warnings (malformed_numbers 1 (read (pre ++ line :: post)))
  = warnings (malformed_numbers 1 (read pre))
    ++ match loaded pre with
       | inr _ =>
           (if malformed line
            then [Print (warning (S (List.length pre)))] else [])
           ++ warnings (malformed_numbers (S (S (List.length pre)))
                          (read post))
       | inl _ => []
       end.
Proof.
  intros Ha. rewrite read_app. unfold loaded.
  destruct (first_abort pre) eqn:E.
  - now rewrite app_nil_r.
  - rewrite (read_clean _ E). cbn [read]. rewrite Ha.
    rewrite malformed_numbers_split, !warnings_app.
    now destruct (malformed line).
Qed.

(** C6: a line of whitespace only prints nothing, and above all no
    warning with its number, and adds nothing to the collection: the
    load ends as it does on the file without that line, with the same
    collection or the same exception. Where no line makes the decoder
    raise anything but [JSONDecodeError], the lines before it and after
    it are all processed and the collection is the one of the file
    without the line. *)
Theorem blank_line_skipped
  (fs : filesystem) (path : str) (pre post : list str) (line : str) :
  fs path = File (pre ++ line :: post) ->
  blank line = true ->
  let n := S (List.length pre) in
  exists w1 w2 : list event,
    load_lines 1 pre [] = (w1, loaded pre)
    /\ load_lines (S n) post [] = (w2, loaded post)
    /\ _load_logs fs path
       = (Open path
          :: w1 ++ match loaded pre with inr _ => w2 | inl _ => [] end,
          loaded (pre ++ post))
    /\ ~ In (Print (warning n)) (w1 ++ w2)
    /\ (first_abort (pre ++ post) = None ->
        load_lines 1 pre [] = (w1, inr (decoded pre))
        /\ load_lines (S n) post [] = (w2, inr (decoded post))
        /\ _load_logs fs path
           = (Open path :: w1 ++ w2, inr (decoded (pre ++ post)))).
Proof.
  intros Hfs Hblank n.
  assert (Ha : aborts line = None) by (unfold aborts; now rewrite Hblank).
  assert (Hm : malformed line = false)
    by (unfold malformed; now rewrite Hblank).
  assert (Hd : decode_line line = [])
    by (unfold decode_line; now rewrite Hblank).
  exists (warnings (malformed_numbers 1 (read pre))),
         (warnings (malformed_numbers (S n) (read post))).
  rewrite !load_lines_loaded, (_load_logs_spec _ _ _ Hfs).
  rewrite (load_trace_split _ _ _ Ha), Hm, (loaded_skip _ _ _ Ha Hd).
  simpl app.
  split; [reflexivity|]. split; [reflexivity|]. split; [reflexivity|].
  split.
  - rewrite in_app_iff. intros [H|H]; apply read_warnings_range in H;
      unfold n in *; lia.
  - intros Hnone. pose proof Hnone as Hpost.
    rewrite first_abort_app in Hpost. unfold loaded. rewrite Hnone.
    destruct (first_abort pre); [discriminate|]. rewrite Hpost. auto.
Qed.

(** What [main] does with an exception that is not
    [FileNotFoundError]. *)
Lemma main_handles (t : list event) (e : exn) :
  (forall msg, e <> FileNotFoundError msg) ->
  try_except (t, inl e)
    (fun e =>
       match e with
       | FileNotFoundError _ => print (cross ++ lit " " ++ str_of_exn e)
       | _ => print (cross ++ lit " An unexpected error occurred: "
                      ++ str_of_exn e)
       end)
  = (t ++ [Print (unexpected e)], @inr exn unit tt).
Proof.
  intros H. pose proof (print_unexpected e H) as Hp.
  unfold unexpected in Hp. unfold try_except.
  destruct e; try (now destruct (H msg)); rewrite Hp; reflexivity.
Qed.

Lemma abort_not_missing (e : exn) :
  e = ValueError \/ e = RecursionError ->
  forall msg, e <> FileNotFoundError msg.
Proof. intros [-> | ->] msg; discriminate. Qed.

(** C4: a non-blank line on which the decoder raises an exception that
    is not [JSONDecodeError] is not skipped: no warning is printed for
    it, the load ends with that exception, the lines after it are not
    read and the values of the lines before it are lost; [main] then
    prints the line of an unexpected error and no report. *)
Theorem decoder_error_aborts_load
  (fs : filesystem) (path : str) (pre post : list str) (line : str)
  (e : exn) :
  fs path = File (pre ++ line :: post) ->
  first_abort pre = None ->
  aborts line = Some e ->
  let n := S (List.length pre) in
  _load_logs fs path
  = (Open path :: warnings (malformed_numbers 1 pre), inl e)
  /\ (forall m, n <= m -> ~ In (Print (warning m)) (fst (_load_logs fs path)))
  /\ LogParser_init fs path
     = (Exists path :: Open path :: warnings (malformed_numbers 1 pre),
        inl e)
  /\ main fs path
     = (Exists path :: Open path :: warnings (malformed_numbers 1 pre)
        ++ [Print (unexpected e)], inr tt).
Proof.
  intros Hfs Hpre Hline n.
  assert (Hload : _load_logs fs path
                  = (Open path :: warnings (malformed_numbers 1 pre), inl e)).
  { rewrite (_load_logs_spec _ _ _ Hfs). unfold loaded.
    rewrite read_app, first_abort_app, Hpre. cbn [read first_abort].
    now rewrite Hline, app_nil_r. }
  assert (Hinit : LogParser_init fs path
     = (Exists path :: Open path :: warnings (malformed_numbers 1 pre),
        inl e)).
  { unfold LogParser_init, os_path_exists. rewrite Hfs. cbn [bind ret].
    now rewrite Hload. }
  split; [exact Hload|]. split; [|split; [exact Hinit|]].
  - intros m Hm. rewrite Hload. simpl. intros [H|H]; [discriminate|].
    apply in_warnings, malformed_numbers_range in H. unfold n in Hm. lia.
  - unfold main. rewrite Hinit. cbn [bind].
    apply aborts_cases in Hline. destruct Hline as (_ & _ & _ & He).
    exact (main_handles
             (Exists path :: Open path :: warnings (malformed_numbers 1 pre))
             e (abort_not_missing e He)).
Qed.

(** X17: a non-blank line on which the decoder raises
    [JSONDecodeError], at position [n] counted from 1 and read by the
    loader, prints exactly one warning, which names [n], and adds
    nothing to the collection: the load ends as it does on the file
    without that line. Where no line makes the decoder raise another
    exception, the lines before and after it are processed as they
    would be without it, the lines after it from number [n + 1] on. *)
Theorem malformed_line_warned_once
  (fs : filesystem) (path : str) (pre post : list str) (line : str) :
  fs path = File (pre ++ line :: post) ->
  blank line = false ->
  json_loads line = inl JSONDecodeError ->
  let n := S (List.length pre) in
  exists w1 w2 : list event,
    load_lines 1 pre [] = (w1, loaded pre)
    /\ load_lines (S n) post [] = (w2, loaded post)
    /\ _load_logs fs path
       = (Open path
          :: w1 ++ match loaded pre with
                   | inr _ => Print (warning n) :: w2
                   | inl _ => []
                   end,
          loaded (pre ++ post))
    /\ ~ In (Print (warning n)) w1
    /\ ~ In (Print (warning n)) w2
    /\ (first_abort (pre ++ post) = None ->
        _load_logs fs path
        = (Open path :: w1 ++ Print (warning n) :: w2,
           inr (decoded pre ++ decoded post))).
Proof.
  intros Hfs Hblank Hbad n.
  assert (Ha : aborts line = None)
    by (unfold aborts; now rewrite Hblank, Hbad).
  assert (Hm : malformed line = true)
    by (unfold malformed; now rewrite Hblank, Hbad).
  assert (Hd : decode_line line = [])
    by (unfold decode_line; now rewrite Hblank, Hbad).
  exists (warnings (malformed_numbers 1 (read pre))),
         (warnings (malformed_numbers (S n) (read post))).
  rewrite !load_lines_loaded, (_load_logs_spec _ _ _ Hfs).
  rewrite (load_trace_split _ _ _ Ha), Hm, (loaded_skip _ _ _ Ha Hd).
  simpl app.
  split; [reflexivity|]. split; [reflexivity|]. split; [reflexivity|].
  split; [|split].
  - intros H. apply read_warnings_range in H. unfold n in *; lia.
  - intros H. apply read_warnings_range in H. unfold n in *; lia.
  - intros Hnone. unfold loaded. rewrite Hnone, decoded_app.
    rewrite first_abort_app in Hnone.
    destruct (first_abort pre); [discriminate|]. reflexivity.
Qed.

(** X18: when no line makes the decoder raise anything but
    [JSONDecodeError], the collection is the list of the decoded values
    of the non-blank lines that decode, objects or not, in file order: a
    line that decodes to [v] puts [v] between the values of the lines
    before it and those of the lines after it, and there are as many
    values as valid lines. *)
Theorem loader_collects_valid_lines
  (fs : filesystem) (path : str) (file : list str) :
  fs path = File file ->
  first_abort file = None ->
  (exists w, _load_logs fs path = (w, inr (decoded file)))
  /\ List.length (decoded file) = List.length (filter valid file)
  /\ (forall pre line post v,
        file = pre ++ line :: post ->
        blank line = false ->
        json_loads line = inr v ->
        decoded file = decoded pre ++ v :: decoded post).
Proof.
  intros Hfs Hnone. split; [|split].
  - eexists. rewrite (_load_logs_spec _ _ _ Hfs). unfold loaded.
    now rewrite Hnone.
  - clear Hfs Hnone. induction file as [|line rest IH]; [reflexivity|].
    unfold decoded in *. simpl. rewrite length_app, IH.
    unfold decode_line, valid.
    destruct (blank line); simpl; [reflexivity|].
    destruct (json_loads line); reflexivity.
  - intros pre line post v -> Hblank Hv.
    rewrite decoded_app. unfold decoded at 2. simpl.
    unfold decode_line at 1. now rewrite Hblank, Hv.
Qed.

Lemma lines_accounted (i : nat) (file : list str) :
  first_abort file = None ->
  List.length (malformed_numbers i file) + List.length (decoded file)
  + List.length (filter blank file) = List.length file.
Proof.
  revert i; induction file as [|line rest IH]; intros i Hnone;
    [reflexivity|].
  cbn [first_abort] in Hnone.
  destruct (aborts line) eqn:Ha; [discriminate|].
  unfold decoded in *. cbn [malformed_numbers flat_map filter].
  rewrite length_app. specialize (IH (S i) Hnone).
  assert (Hline : List.length (if malformed line then [i] else [])
                  + List.length (decode_line line)
                  + List.length (if blank line then [line] else []) = 1).
  { unfold malformed, decode_line, aborts in *.
    destruct (blank line); simpl; [reflexivity|].
    destruct (json_loads line) as [[| |]|]; try discriminate; reflexivity. }
  destruct (malformed line), (blank line); simpl in *; lia.
Qed.

Lemma malformed_numbers_spec (i : nat) (file : list str) (n : nat) :
  In n (malformed_numbers i file)
  <-> i <= n /\ exists line, nth_error file (n - i) = Some line
                             /\ malformed line = true.
Proof.
  revert i; induction file as [|line rest IH]; intros i.
  - simpl. split; [easy|]. intros (_ & l & H & _).
    destruct (n - i); discriminate.
  - cbn [malformed_numbers].
    assert (Hrest : In n (malformed_numbers (S i) rest)
                    <-> i < n /\ exists l, nth_error (line :: rest) (n - i)
                                             = Some l /\ malformed l = true).
    { rewrite IH. split.
      - intros (Hle & l & Hl & Hm). split; [lia|]. exists l.
        replace (n - i) with (S (n - S i)) by lia. auto.
      - intros (Hlt & l & Hl & Hm). split; [lia|]. exists l.
        replace (n - i) with (S (n - S i)) in Hl by lia. auto. }
    destruct (malformed line) eqn:Hm; simpl.
    + rewrite Hrest. split.
      * intros [<- | (Hlt & l & Hl & Hml)].
        -- split; [lia|]. exists line. rewrite Nat.sub_diag. auto.
        -- split; [lia|]. eauto.
      * intros (Hle & l & Hl & Hml).
        destruct (Nat.eq_dec i n) as [-> | Hne]; [now left|].
        right. split; [lia|]. eauto.
    + rewrite Hrest. split.
      * intros (Hlt & l & Hl & Hml). split; [lia|]. eauto.
      * intros (Hle & l & Hl & Hml). split; [|eauto].
        destruct (Nat.eq_dec i n) as [-> | Hne]; [|lia].
        rewrite Nat.sub_diag in Hl. simpl in Hl. congruence.
Qed.

Lemma malformed_numbers_sorted (i : nat) (file : list str) :
  StronglySorted lt (malformed_numbers i file).
Proof.
  revert i; induction file as [|line rest IH]; intros i; simpl;
    [constructor|].
  destruct (malformed line); [|apply IH].
  constructor; [apply IH|]. apply Forall_forall. intros n Hn.
  apply malformed_numbers_range in Hn. lia.
Qed.

Lemma malformed_numbers_shift (k i : nat) (file : list str) :
  malformed_numbers (k + i) file = map (Nat.add k) (malformed_numbers i file).
Proof.
  revert i; induction file as [|line rest IH]; intros i; [reflexivity|].
  simpl. rewrite plus_n_Sm, IH. now destruct (malformed line).
Qed.


Lemma valid_none_decoded (file : list str) :
  Forall (fun line => valid line = false) file -> decoded file = [].
Proof.
  induction 1 as [|line rest Hline _ IH]; [reflexivity|].
  unfold decoded in *. simpl. rewrite IH, app_nil_r.
  unfold valid in Hline. unfold decode_line.
  destruct (blank line); [reflexivity|].
  destruct (json_loads line); [reflexivity | discriminate].
Qed.

(** X7: the loader prints warnings only. If no line makes the decoder
    raise anything but [JSONDecodeError], every line of the file is a
    blank line, a record of the collection or a warning, and only one of
    these; the collection has at most as many records as the file has
    lines that are not blank, and as many exactly when no warning is
    printed. Otherwise the load ends with the exception of the first
    such line, and the warnings are those of the lines before it. *)
Theorem every_line_accounted (fs : filesystem) (path : str) (file : list str) :
  fs path = File file ->
  exists ns,
    _load_logs fs path = (Open path :: warnings ns, loaded file)
    /\ (first_abort file = None ->
        loaded file = inr (decoded file)
        /\ List.length ns + List.length (decoded file)
           + List.length (filter blank file) = List.length file
        /\ List.length (decoded file)
           <= List.length (filter (fun line => negb (blank line)) file)
        /\ (List.length (decoded file)
            = List.length (filter (fun line => negb (blank line)) file)
            <-> ns = []))
    /\ (forall e, first_abort file = Some e ->
        loaded file = inl e
        /\ exists pre line post,
             file = pre ++ line :: post
             /\ first_abort pre = None
             /\ aborts line = Some e
             /\ ns = malformed_numbers 1 pre).
Proof.
  intros Hfs. exists (malformed_numbers 1 (read file)).
  split; [now apply _load_logs_spec|]. split.
  - intros Hnone. rewrite (read_clean _ Hnone). unfold loaded.
    rewrite Hnone.
    pose proof (lines_accounted 1 file Hnone) as Ha.
    pose proof (filter_length blank file) as Hb.
    split; [reflexivity|]. split; [exact Ha|].
    split; [lia|]. split.
    + intros H. destruct (malformed_numbers 1 file); [reflexivity|].
      simpl in Ha. lia.
    + intros H. rewrite H in Ha. simpl in Ha. lia.
  - intros e He. unfold loaded. rewrite He. split; [reflexivity|].
    destruct (read_prefix file) as [Hr Hp]. rewrite He in Hp.
    destruct Hp as (line & post & Hf & Hl).
    now exists (read file), line, post.
Qed.

Lemma read_nth (file : list str) (k : nat) (line : str) :
  nth_error (read file) k = Some line
  <-> nth_error file k = Some line /\ first_abort (firstn (S k) file) = None.
Proof.
  revert k; induction file as [|l rest IH]; intros k.
  - destruct k; simpl; split; try discriminate; intros [H _]; discriminate.
  - cbn [read]. destruct (aborts l) eqn:E.
    + split.
      * destruct k; discriminate.
      * intros [_ H]. cbn [firstn first_abort] in H. rewrite E in H.
        discriminate.
    + destruct k as [|k].
      * cbn [nth_error firstn first_abort]. rewrite E. simpl. tauto.
      * cbn [nth_error]. rewrite IH.
        change (firstn (S (S k)) (l :: rest)) with (l :: firstn (S k) rest).
        cbn [first_abort]. rewrite E. tauto.
Qed.

(** X8: the loader prints a warning with the number [n] exactly when the
    file has a line [n], counted from 1, that is not blank, on which
    the decoder raises [JSONDecodeError], and no line up to it makes the
    decoder raise another exception; the warnings come in increasing
    order of their numbers. *)
Theorem warnings_name_malformed_lines
  (fs : filesystem) (path : str) (file : list str) :
  fs path = File file ->
  exists ns,
    _load_logs fs path = (Open path :: warnings ns, loaded file)
    /\ StronglySorted lt ns
    /\ forall n, In (Print (warning n)) (warnings ns)
                 <-> 1 <= n /\ exists line,
                       nth_error file (n - 1) = Some line
                       /\ blank line = false
                       /\ json_loads line = inl JSONDecodeError
                       /\ first_abort (firstn n file) = None.
Proof.
  intros Hfs. exists (malformed_numbers 1 (read file)).
  split; [now apply _load_logs_spec|].
  split; [apply malformed_numbers_sorted|].
  intros n. rewrite in_warnings, malformed_numbers_spec.
  split; intros (Hn & line & Hl & Hm); (split; [exact Hn|]); exists line.
  - apply read_nth in Hl. destruct Hl as [Hl Hf].
    replace (S (n - 1)) with n in Hf by lia.
    unfold malformed in Hm. destruct (blank line); [discriminate|].
    destruct (json_loads line) as [[| |]|]; try discriminate. auto.
  - destruct Hm as (Hb & Hj & Hf). split.
    + apply read_nth. split; [exact Hl|].
      now replace (S (n - 1)) with n by lia.
    + unfold malformed. now rewrite Hb, Hj.
Qed.

Lemma split_from_app (body text : str) (current : str) :
  split_from current ((body ++ [10%N]) ++ text)
  = split_from current (body ++ [10%N]) ++ split_from [] text.
Proof.
  revert current; induction body as [|c body IH]; intros current.
  - reflexivity.
  - cbn [app split_from]. destruct (c =? 10)%N.
    + now rewrite IH.
    + apply IH.
Qed.

Lemma split_lines_app (text1 text2 : str) :
  text1 = [] \/ (exists body, text1 = body ++ [10%N]) ->
  split_lines (text1 ++ text2) = split_lines text1 ++ split_lines text2.
Proof.
  unfold split_lines. intros [-> | [body ->]]; [reflexivity|].
  apply split_from_app.
Qed.

(** X9: when the text of a first file is empty or ends with a newline,
    the lines of that text followed by the text of a second file are
    the lines of the first followed by those of the second, and loading
    them as one file gives the warnings of the first and, unless its
    load ends with an exception, those of the second with the number of
    lines of the first added to their line numbers; the result is the
    exception of the first, else that of the second, else the records
    of the first followed by those of the second. *)
Theorem load_concatenation
  (fs fs1 fs2 : filesystem) (path : str) (text1 text2 : str) :
  text1 = [] \/ (exists body, text1 = body ++ [10%N]) ->
  fs path = File (split_lines (text1 ++ text2)) ->
  fs1 path = File (split_lines text1) ->
  fs2 path = File (split_lines text2) ->
  exists ns1 ns2 r1 r2,
    _load_logs fs1 path = (Open path :: warnings ns1, r1)
    /\ _load_logs fs2 path = (Open path :: warnings ns2, r2)
    /\ _load_logs fs path
       = (Open path
          :: warnings
               (ns1 ++ match r1 with
                       | inr _ =>
                           map (Nat.add (List.length (split_lines text1))) ns2
                       | inl _ => []
                       end),
          match r1, r2 with
          | inl e, _ => inl e
          | inr _, inl e => inl e
          | inr logs1, inr logs2 => inr (logs1 ++ logs2)
          end).
Proof.
  intros Hend H H1 H2.
  rewrite (split_lines_app _ _ Hend) in H.
  set (file1 := split_lines text1) in *.
  set (file2 := split_lines text2) in *.
  exists (malformed_numbers 1 (read file1)), (malformed_numbers 1 (read file2)),
         (loaded file1), (loaded file2).
  rewrite (_load_logs_spec _ _ _ H), (_load_logs_spec _ _ _ H1),
          (_load_logs_spec _ _ _ H2).
  rewrite loaded_app, read_app. unfold loaded.
  destruct (first_abort file1) eqn:E1.
  - rewrite app_nil_r. repeat split.
  - rewrite malformed_numbers_app, (read_clean _ E1).
    replace (1 + List.length file1) with (List.length file1 + 1) by lia.
    rewrite (malformed_numbers_shift (List.length file1) 1 (read file2)).
    repeat split.
Qed.

(** ** The counter and the report *)

Lemma total_incr (c : Counter) (key : value) :
  total (counter_incr c key) = S (total c).
Proof.
  unfold total. induction c as [|[k n] rest IH]; simpl; [reflexivity|].
  destruct (key_eq k key); simpl; [reflexivity | rewrite IH; lia].
Qed.

Lemma count_levels_total (logs : list value) (c c' : Counter) :
  count_levels logs c = inr c' -> total c' = total c + List.length logs.
Proof.
  revert c; induction logs as [|log rest IH]; simpl; intros c H.
  - inversion H; lia.
  - destruct (get_level log) as [e|level]; simpl in H; [discriminate|].
    destruct (hashable level); [|discriminate].
    apply IH in H. rewrite total_incr in H. lia.
Qed.

Lemma insert_perm (x : value * nat) (l r : list (value * nat)) :
  insert x l = inr r -> Permutation (x :: l) r.
Proof.
  revert r; induction l as [|y rest IH]; simpl; intros r H.
  - inversion H; auto.
  - destruct (item_lt x y) as [e|[|]]; simpl in H; try discriminate.
    + inversion H; auto.
    + destruct (insert x rest) as [e|r']; simpl in H; [discriminate|].
      inversion H; subst. rewrite perm_swap. constructor. now apply IH.
Qed.

Lemma sort_into_perm (l acc r : list (value * nat)) :
  sort_into acc l = inr r -> Permutation (acc ++ l) r.
Proof.
  revert acc; induction l as [|x rest IH]; simpl; intros acc H.
  - inversion H. now rewrite app_nil_r.
  - destruct (insert x acc) as [e|acc'] eqn:E; simpl in H; [discriminate|].
    apply IH in H. apply insert_perm in E.
    rewrite <- H, <- E. symmetry. apply Permutation_middle.
Qed.

Lemma sorted_perm (l r : list (value * nat)) :
  sorted l = inr r -> Permutation l r.
Proof. apply (sort_into_perm l []). Qed.

Lemma total_perm (l r : list (value * nat)) :
  Permutation l r -> total l = total r.
Proof.
  intros H. unfold total. induction H; simpl; lia.
Qed.

Lemma print_rule : print rule = ([Print rule], inr tt).
Proof. apply print_plain, plain_rule. Qed.

Lemma print_total_line (n : nat) :
  print (total_line n) = ([Print (total_line n)], inr tt).
Proof. apply print_plain, plain_total_line. Qed.

Lemma print_no_entries : print no_entries = ([Print no_entries], inr tt).
Proof. apply print_plain, plain_lit. Qed.

Lemma display_summary_empty (path : str) :
  display_summary path [] = ([Print no_entries], inr tt).
Proof. apply print_no_entries. Qed.

Lemma print_levels_ok (items : list (value * nat)) (n : nat) :
  forallb printable items = true ->
  print_levels items n = (rendered items, inr (n + total items)).
Proof.
  revert n; induction items as [|[k c] rest IH]; intros n H.
  - simpl. unfold ret. now rewrite Nat.add_0_r.
  - simpl in H. apply andb_prop in H. destruct H as [Hk Hrest].
    unfold printable in Hk. simpl in Hk.
    destruct (format10 k) as [e|text] eqn:Hf; [discriminate|].
    unfold rendered. cbn [print_levels flat_map fst snd].
    fold (rendered rest). rewrite Hf. cbn [lift bind].
    rewrite print_ok by (now rewrite encodable_level_line).
    cbn [bind]. rewrite (IH _ Hrest). unfold total. simpl.
    now rewrite Nat.add_assoc.
Qed.

Lemma print_levels_inv (items : list (value * nat)) (n m : nat) tr :
  print_levels items n = (tr, inr m) -> forallb printable items = true.
Proof.
  revert n tr; induction items as [|[k c] rest IH]; intros n tr H; auto.
  cbn [print_levels] in H.
  destruct (format10 k) as [e|text] eqn:Hk; cbn [lift bind] in H;
    [discriminate|].
  unfold print in H.
  destruct (encodable (level_line text c)) eqn:He; cbn [bind] in H;
    [|discriminate].
  destruct (print_levels rest (n + c)) as [tr' [e|m']] eqn:E;
    simpl in H; [discriminate|].
  inversion H; subst.
  simpl. unfold printable. simpl. rewrite Hk.
  rewrite encodable_level_line in He. rewrite He. simpl.
  eapply IH; exact E.
Qed.

Lemma format10_error (k : value) (e : exn) :
  format10 k = inl e -> e = TypeError.
Proof. destruct k; simpl; intros H; inversion H; reflexivity. Qed.

(** The loop prints lines of levels only, and fails only with a
    [TypeError], on a key without the format, or with a
    [UnicodeEncodeError], on a line that cannot be written. *)
Lemma print_levels_trace (items : list (value * nat)) (n : nat) t r :
  print_levels items n = (t, r) ->
  Forall (fun ev => exists text count, ev = Print (level_line text count)) t
  /\ (forall e, r = inl e -> e = TypeError \/ e = UnicodeEncodeError).
Proof.
  revert n t r; induction items as [|[k c] rest IH]; intros n t r H.
  - inversion H. split; [constructor | discriminate].
  - cbn [print_levels] in H.
    destruct (format10 k) as [e|text] eqn:Hk; cbn [lift bind] in H.
    + inversion H; subst. split; [constructor|].
      intros e' He; inversion He; subst. left.
      eapply format10_error; eauto.
    + unfold print in H.
      destruct (encodable (level_line text c)) eqn:He; cbn [bind] in H.
      * destruct (print_levels rest (n + c)) as [t' r'] eqn:E.
        destruct (IH _ _ _ E) as [IH1 IH2].
        destruct r' as [e|m]; simpl in H; inversion H; subst.
        -- split; [constructor; eauto|]. intros e' He'; inversion He'; subst.
           now apply IH2.
        -- split; [constructor; eauto | discriminate].
      * inversion H; subst. split; [constructor|].
        intros e' He'; inversion He'; auto.
Qed.

(** The report is printed to its end exactly when the standard output
    encodes the name of the file and every item is printable. *)
Lemma print_report_ok (path : str) (items : list (value * nat)) :
  encodable (basename path) = true ->
  forallb printable items = true ->
  print_report path items = (report path items, inr tt).
Proof.
  intros Hp Hi. unfold print_report.
  rewrite (print_ok (header path)) by now rewrite encodable_header.
  rewrite print_rule. cbn [bind app].
  rewrite (print_levels_ok _ 0 Hi). cbn [bind app].
  rewrite print_total_line. reflexivity.
Qed.

Lemma print_report_unnamed (path : str) (items : list (value * nat)) :
  encodable (basename path) = false ->
  print_report path items = ([], inl UnicodeEncodeError).
Proof.
  intros Hp. unfold print_report.
  rewrite (print_fails (header path)) by now rewrite encodable_header.
  reflexivity.
Qed.

Lemma print_report_inv (path : str) (items : list (value * nat)) tr :
  print_report path items = (tr, inr tt) ->
  encodable (basename path) = true
  /\ forallb printable items = true
  /\ tr = report path items.
Proof.
  intros H. destruct (encodable (basename path)) eqn:Hp.
  - destruct (forallb printable items) eqn:Hi.
    + rewrite (print_report_ok _ _ Hp Hi) in H. inversion H. auto.
    + exfalso. unfold print_report in H.
      rewrite (print_ok (header path)) in H by now rewrite encodable_header.
      rewrite print_rule in H. cbn [bind app] in H.
      destruct (print_levels items 0) as [t' [e|m]] eqn:E;
        cbn [bind app] in H; [discriminate|].
      apply print_levels_inv in E. congruence.
  - rewrite (print_report_unnamed _ _ Hp) in H. discriminate.
Qed.

Lemma print_report_failure (path : str) (items : list (value * nat)) t e :
  print_report path items = (t, inl e) ->
  (e = TypeError \/ e = UnicodeEncodeError)
  /\ (t = [] \/ exists lines,
        t = Print (header path) :: Print rule :: lines
        /\ Forall (fun ev => exists text count,
                     ev = Print (level_line text count)) lines).
Proof.
  intros H. destruct (encodable (basename path)) eqn:Hp.
  - unfold print_report in H.
    rewrite (print_ok (header path)) in H by now rewrite encodable_header.
    rewrite print_rule in H. cbn [bind app] in H.
    destruct (print_levels items 0) as [t' [e'|m]] eqn:E;
      cbn [bind app] in H.
    + inversion H; subst.
      destruct (print_levels_trace _ _ _ _ E) as [Ht He].
      split; [now apply He|]. right. now exists t'.
    + rewrite print_total_line in H. discriminate.
  - rewrite (print_report_unnamed _ _ Hp) in H. inversion H. auto.
Qed.

Lemma display_summary_count_fails (path : str) (logs : list value) (e : exn) :
  level_counts logs = inl e -> display_summary path logs = ([], inl e).
Proof.
  intros H. destruct logs as [|log rest]; [discriminate|].
  unfold display_summary. now rewrite H.
Qed.

(** Once the counter is built, the summary prints the header and the
    rule, sorts, and prints the rest of the report. *)
Lemma display_summary_report (path : str) (logs : list value)
  (c items : list (value * nat)) :
  logs <> [] ->
  level_counts logs = inr c ->
  sorted c = inr items ->
  display_summary path logs = print_report path items.
Proof.
  intros Hne Hc Hs. destruct logs as [|log rest]; [congruence|].
  unfold display_summary, print_report. rewrite Hc, bind_lift_inr.
  destruct (print (header path)) as [th [e|u]]; [reflexivity|].
  rewrite print_rule. cbn [bind app]. rewrite Hs, bind_lift_inr.
  reflexivity.
Qed.

Lemma display_summary_sort_fails (path : str) (logs : list value)
  (c : list (value * nat)) (e : exn) :
  logs <> [] ->
  level_counts logs = inr c ->
  sorted c = inl e ->
  display_summary path logs
  = if encodable (basename path)
    then ([Print (header path); Print rule], inl e)
    else ([], inl UnicodeEncodeError).
Proof.
  intros Hne Hc Hs. destruct logs as [|log rest]; [congruence|].
  unfold display_summary. rewrite Hc, bind_lift_inr.
  rewrite <- encodable_header.
  destruct (encodable (header path)) eqn:Hh.
  - rewrite (print_ok _ Hh), print_rule. cbn [bind app]. rewrite Hs.
    reflexivity.
  - rewrite (print_fails _ Hh). reflexivity.
Qed.

(** On a collection that is not empty the summary succeeds exactly when
    counting, sorting, formatting and printing do, and then prints the
    report. *)
Lemma display_summary_ok (path : str) (logs : list value)
  (c items : list (value * nat)) :
  logs <> [] ->
  level_counts logs = inr c ->
  sorted c = inr items ->
  encodable (basename path) = true ->
  forallb printable items = true ->
  display_summary path logs = (report path items, inr tt).
Proof.
  intros Hne Hc Hs Hp Hi.
  rewrite (display_summary_report _ _ _ _ Hne Hc Hs).
  now apply print_report_ok.
Qed.

Lemma display_summary_inv (path : str) (logs : list value) tr :
  logs <> [] ->
  display_summary path logs = (tr, inr tt) ->
  exists c items,
    level_counts logs = inr c /\ sorted c = inr items
    /\ encodable (basename path) = true
    /\ forallb printable items = true /\ tr = report path items.
Proof.
  intros Hne H.
  destruct (level_counts logs) as [e|c] eqn:Hc.
  { rewrite (display_summary_count_fails _ _ _ Hc) in H. discriminate. }
  destruct (sorted c) as [e|items] eqn:Hs.
  { rewrite (display_summary_sort_fails _ _ _ _ Hne Hc Hs) in H.
    destruct (encodable (basename path)); discriminate. }
  rewrite (display_summary_report _ _ _ _ Hne Hc Hs) in H.
  apply print_report_inv in H. exists c, items. tauto.
Qed.

Lemma count_levels_error (logs : list value) (c : Counter) (e : exn) :
  count_levels logs c = inl e -> e = AttributeError \/ e = TypeError.
Proof.
  revert c; induction logs as [|log rest IH]; simpl; intros c H;
    [discriminate|].
  destruct log; simpl in H; try (inversion H; auto; fail).
  destruct (hashable _); [eauto | inversion H; auto].
Qed.

Lemma item_lt_error (x y : value * nat) (e : exn) :
  item_lt x y = inl e -> e = TypeError.
Proof.
  unfold item_lt, key_lt. destruct (key_eq (fst x) (fst y)); [discriminate|].
  destruct (as_number (fst x)), (as_number (fst y));
    destruct (fst x), (fst y); intros H; inversion H; reflexivity.
Qed.

Lemma insert_error (x : value * nat) (l : list (value * nat)) (e : exn) :
  insert x l = inl e -> e = TypeError.
Proof.
  induction l as [|y rest IH]; simpl; [discriminate|].
  destruct (item_lt x y) as [e'|[|]] eqn:E; simpl.
  - intros H; inversion H; subst. eapply item_lt_error; eauto.
  - discriminate.
  - destruct (insert x rest); simpl; [|discriminate].
    intros H; inversion H; subst. now apply IH.
Qed.

Lemma sort_into_error (l acc : list (value * nat)) (e : exn) :
  sort_into acc l = inl e -> e = TypeError.
Proof.
  revert acc; induction l as [|x rest IH]; simpl; intros acc;
    [discriminate|].
  destruct (insert x acc) as [e'|acc'] eqn:E; simpl.
  - intros H; inversion H; subst. eapply insert_error; eauto.
  - apply IH.
Qed.

(** A summary that fails: which exception, and what is on the screen. *)
Lemma display_summary_failure (path : str) (logs : list value) t (e : exn) :
  display_summary path logs = (t, inl e) ->
  (e = AttributeError \/ e = TypeError \/ e = UnicodeEncodeError)
  /\ (e = AttributeError -> t = [])
  /\ (t = [] \/ exists lines,
        t = Print (header path) :: Print rule :: lines
        /\ Forall (fun ev => exists text count,
                     ev = Print (level_line text count)) lines).
Proof.
  intros H. destruct logs as [|log rest].
  { rewrite display_summary_empty in H. discriminate. }
  assert (Hne : log :: rest <> []) by discriminate.
  destruct (level_counts (log :: rest)) as [e0|c] eqn:Hc.
  { rewrite (display_summary_count_fails _ _ _ Hc) in H.
    inversion H; subst. apply count_levels_error in Hc. tauto. }
  destruct (sorted c) as [e0|items] eqn:Hs.
  { rewrite (display_summary_sort_fails _ _ _ _ Hne Hc Hs) in H.
    destruct (encodable (basename path)); inversion H; subst.
    - apply sort_into_error in Hs. subst.
      repeat split; [auto | discriminate |].
      right. exists []. split; [reflexivity | constructor].
    - split; [auto|]. split; [reflexivity | now left]. }
  rewrite (display_summary_report _ _ _ _ Hne Hc Hs) in H.
  apply print_report_failure in H. destruct H as [He Ht].
  repeat split; [tauto | | exact Ht].
  intros ->. destruct He; discriminate.
Qed.

(** The decimal of a number is not empty and ends with a digit. *)
Lemma uint_digits (d : Decimal.uint) :
  Forall (fun c => (48 <= c <= 57)%N) (lit (NilEmpty.string_of_uint d)).
Proof.
  induction d; simpl; constructor; auto; cbv; split; discriminate.
Qed.

Lemma str_of_nat_digits (n : nat) :
  str_of_nat n <> []
  /\ Forall (fun c => (48 <= c <= 57)%N) (str_of_nat n).
Proof.
  unfold str_of_nat. pose proof (uint_digits (Nat.to_uint n)) as H.
  destruct (Nat.to_uint n); simpl in *;
    (split; [discriminate | auto]).
  repeat constructor; cbv; discriminate.
Qed.

Lemma last_app_nonempty {A} (l1 l2 : list A) (d : A) :
  l2 <> [] -> last (l1 ++ l2) d = last l2 d.
Proof.
  intros H. induction l1 as [|a l1 IH]; [reflexivity|].
  simpl. destruct (l1 ++ l2) eqn:E; [|exact IH].
  apply app_eq_nil in E. tauto.
Qed.

Lemma last_digit (n : nat) : (48 <= last (str_of_nat n) 0 <= 57)%N.
Proof.
  destruct (str_of_nat_digits n) as [Hne Hall].
  rewrite Forall_forall in Hall. apply Hall.
  destruct (exists_last Hne) as (l & c & ->).
  rewrite last_last. apply in_or_app. right. now left.
Qed.

Lemma level_line_not_total (text : str) (count n : nat) :
  level_line text count <> total_line n.
Proof.
  intros H. apply (f_equal (fun l => last l 0%N)) in H.
  unfold total_line in H. rewrite last_last in H.
  unfold level_line in H. rewrite app_assoc in H.
  rewrite last_app_nonempty in H by apply str_of_nat_digits.
  pose proof (last_digit count) as Hd.
  replace (last (str_of_nat count) 0%N) with 10%N in Hd by (symmetry; exact H).
  lia.
Qed.


(** A summary that fails has printed no Total line. *)
Lemma failure_without_total (path : str) (logs : list value) t e (n : nat) :
  display_summary path logs = (t, inl e) -> ~ In (Print (total_text n)) t.
Proof.
  intros H Hin.
  destruct (display_summary_failure _ _ _ _ H) as (_ & _ & H3).
  destruct H3 as [-> | (lines & -> & Hl)]; [easy|].
  destruct Hin as [Hin | [Hin | Hin]].
  - assert (Hh : header path = total_text n) by congruence.
    apply (f_equal (hd 0%N)) in Hh. discriminate Hh.
  - assert (Hh : rule = total_text n) by congruence.
    apply (f_equal (hd 0%N)) in Hh. discriminate Hh.
  - rewrite Forall_forall in Hl. destruct (Hl _ Hin) as (text & c & Hev).
    assert (Hh : level_line text c = total_text n) by congruence.
    change (total_text n) with (total_line n) in Hh.
    now apply level_line_not_total in Hh.
Qed.



Lemma key_eq_str_r (v : value) (s : str) :
  key_eq v (JString s) = true <-> v = JString s.
Proof.
  destruct v; cbn; try (split; [discriminate | congruence]).
  rewrite str_eqb_eq. split; congruence.
Qed.

Lemma key_eq_str_l (v : value) (s : str) :
  key_eq (JString s) v = true <-> v = JString s.
Proof.
  destruct v; cbn; try (split; [discriminate | congruence]).
  rewrite str_eqb_eq. split; congruence.
Qed.

Lemma key_eq_str_refl (s : str) : key_eq (JString s) (JString s) = true.
Proof. now apply key_eq_str_r. Qed.

Lemma counter_get_incr (c : Counter) (key : value) (s : str) :
  counter_get (counter_incr c key) (JString s)
  = counter_get c (JString s) + (if key_eq key (JString s) then 1 else 0).
Proof.
  induction c as [|[k n] rest IH]; simpl.
  - destruct (key_eq key (JString s)); reflexivity.
  - destruct (key_eq k key) eqn:Hk; simpl;
      destruct (key_eq k (JString s)) eqn:Hs;
      destruct (key_eq key (JString s)) eqn:Hs'; try lia; try exact IH;
      try (apply key_eq_str_r in Hs; subst k);
      try (apply key_eq_str_r in Hs'; subst key);
      try (apply key_eq_str_l in Hk; subst key);
      try rewrite key_eq_str_refl in *; try congruence.
Qed.

Lemma level_name_key (fields : list (str * value)) (s : str) :
  key_eq (level_of fields) (JString s)
  = match level_name (JObject fields) with
    | Some t => str_eqb t s
    | None => false
    end.
Proof.
  simpl. destruct (level_of fields); try reflexivity.
Qed.

(** The count under a name is the number of records of that name. *)
Lemma count_levels_name (logs : list value) (c c' : Counter) (s : str) :
  count_levels logs c = inr c' ->
  counter_get c' (JString s) = counter_get c (JString s) + occurrences s logs.
Proof.
  revert c; induction logs as [|log rest IH]; simpl; intros c H.
  - inversion H. unfold occurrences. simpl. lia.
  - destruct log; simpl in H; try discriminate.
    fold (level_of fields) in H.
    destruct (hashable (level_of fields)); [|discriminate].
    apply IH in H. rewrite H, counter_get_incr, level_name_key.
    unfold occurrences. cbn [filter].
    destruct (level_name (JObject fields)) as [t|];
      [destruct (str_eqb t s)|]; simpl; lia.
Qed.

(** An item of the counter stays, under the same key, and never loses. *)
Lemma counter_incr_keeps (c : Counter) (key k : value) (n : nat) :
  In (k, n) c -> exists n', In (k, n') (counter_incr c key) /\ n <= n'.
Proof.
  induction c as [|[k0 n0] rest IH]; simpl; [easy|].
  intros [H | H]; destruct (key_eq k0 key).
  - inversion H; subst. exists (S n). simpl. auto.
  - exists n. simpl. auto.
  - exists n. simpl. auto.
  - destruct (IH H) as (n' & Hin & Hle). exists n'. simpl. auto.
Qed.

Lemma counter_incr_has (c : Counter) (key : value) :
  exists k n, In (k, n) (counter_incr c key)
              /\ (k = key \/ key_eq k key = true) /\ 0 < n.
Proof.
  induction c as [|[k0 n0] rest IH]; simpl.
  - exists key, 1. simpl. auto.
  - destruct (key_eq k0 key) eqn:E.
    + exists k0, (S n0). simpl. repeat split; auto. lia.
    + destruct IH as (k & n & Hin & Hk & Hn). exists k, n. simpl. auto.
Qed.

Lemma count_levels_keeps (logs : list value) (c c' : Counter) k n :
  count_levels logs c = inr c' ->
  In (k, n) c -> exists n', In (k, n') c' /\ n <= n'.
Proof.
  revert c n; induction logs as [|log rest IH]; simpl; intros c n H Hin.
  - inversion H; subst. exists n. auto.
  - destruct (get_level log) as [e|level]; simpl in H; [discriminate|].
    destruct (hashable level); [|discriminate].
    destruct (counter_incr_keeps c level _ _ Hin) as (n1 & Hin1 & Hle1).
    destruct (IH _ _ H Hin1) as (n2 & Hin2 & Hle2).
    exists n2. split; [assumption | lia].
Qed.

(** A record of the collection is counted under its level, or under the
    key its level matches. *)
Lemma count_levels_has (logs : list value) (c c' : Counter)
  (fields : list (str * value)) :
  count_levels logs c = inr c' ->
  In (JObject fields) logs ->
  exists k n, In (k, n) c'
              /\ (k = level_of fields \/ key_eq k (level_of fields) = true)
              /\ 0 < n.
Proof.
  revert c; induction logs as [|log rest IH]; simpl; intros c H Hin; [easy|].
  destruct (get_level log) as [e|level] eqn:Hl; simpl in H; [discriminate|].
  destruct (hashable level); [|discriminate].
  destruct Hin as [-> | Hin]; [|eapply IH; eauto].
  simpl in Hl. fold (level_of fields) in Hl. inversion Hl; subst level.
  destruct (counter_incr_has c (level_of fields)) as (k & n & Hk & Hm & Hn).
  destruct (count_levels_keeps _ _ _ _ _ H Hk) as (n' & Hin' & Hle).
  exists k, n'. repeat split; auto. lia.
Qed.

(** A record that is no dict stops the counting. *)
Lemma count_levels_not_dict (logs : list value) (c : Counter) (log : value) :
  In log logs -> is_dict log = false ->
  exists e, count_levels logs c = inl e.
Proof.
  revert c; induction logs as [|x rest IH]; simpl; intros c Hin Hd; [easy|].
  destruct (get_level x) as [e|level] eqn:Hl; simpl; [now exists e|].
  destruct (hashable level); [|now exists TypeError].
  destruct Hin as [-> | Hin]; [|now apply IH].
  destruct log; simpl in *; discriminate.
Qed.

(** C10: a dict that has the key "level" is counted under the value bound
    to it, whatever that value, [None] and other false values included;
    it falls under "UNKNOWN" only if that is the value. The fallback is
    for a dict without the key. *)
Theorem present_level_is_the_key (fields : list (str * value)) (v : value) :
  dict_get fields (lit "level") = Some v ->
  get_level (JObject fields) = inr v
  /\ (v <> JString unknown -> level_name (JObject fields) <> Some unknown)
  /\ forall logs c,
       In (JObject fields) logs ->
       level_counts logs = inr c ->
       (exists k n, In (k, n) c /\ (k = v \/ key_eq k v = true) /\ 0 < n)
       /\ counter_get c (JString unknown) = occurrences unknown logs.
Proof.
  intros Hv.
  assert (Hl : level_of fields = v) by (unfold level_of; now rewrite Hv).
  split; [|split].
  - simpl. now rewrite Hv.
  - simpl. rewrite Hl. destruct v; congruence.
  - intros logs c Hin Hc. split.
    + rewrite <- Hl. eapply count_levels_has; eauto.
    + apply (count_levels_name _ _ _ unknown) in Hc. exact Hc.
Qed.

(** C2, as the code has it: the level of a dict is the value bound to
    "level", and "UNKNOWN" when the key is absent; the records counted
    under "UNKNOWN" are the dicts of that level. A record that is no dict
    has no level: reading it raises AttributeError, and the summary of a
    collection that holds one prints nothing and fails. *)
Theorem level_read_from_dicts :
  (forall fields, get_level (JObject fields) = inr (level_of fields))
  /\ (forall fields, dict_get fields (lit "level") = None ->
        get_level (JObject fields) = inr (JString unknown))
  /\ (forall logs c, level_counts logs = inr c ->
        counter_get c (JString unknown) = occurrences unknown logs)
  /\ (forall log, is_dict log = false ->
        get_level log = inl AttributeError
        /\ forall path logs, In log logs ->
             exists e, display_summary path logs = ([], inl e)).
Proof.
  repeat split.
  - intros fields H. simpl. now rewrite H.
  - intros logs c Hc.
    apply (count_levels_name _ _ _ unknown) in Hc. exact Hc.
  - destruct log; simpl in *; congruence.
  - intros path logs Hin.
    destruct (count_levels_not_dict logs [] _ Hin H) as [e He].
    exists e. now apply display_summary_count_fails.
Qed.

Lemma str_ltb_trans (a b c : str) :
  str_ltb a b = true -> str_ltb b c = true -> str_ltb a c = true.
Proof.
  revert b c; induction a as [|x a IH]; intros [|y b] [|z c]; simpl;
    try discriminate; auto.
  rewrite !orb_true_iff, !andb_true_iff, !N.ltb_lt, !N.eqb_eq.
  intros [H1 | [H1 H2]] [H3 | [H3 H4]].
  - left; lia.
  - left; lia.
  - left; lia.
  - right; split; [lia | eauto].
Qed.

Lemma str_ltb_total (a b : str) :
  str_ltb a b = false -> a <> b -> str_ltb b a = true.
Proof.
  revert b; induction a as [|x a IH]; intros [|y b]; simpl;
    try discriminate; auto; try congruence.
  rewrite orb_false_iff, andb_false_iff, orb_true_iff, andb_true_iff.
  rewrite !N.ltb_ge, N.eqb_neq, N.ltb_lt, N.eqb_eq.
  intros [H1 [H2 | H2]] Hne.
  - left; lia.
  - destruct (N.eq_dec x y) as [->|Hxy]; [|left; lia].
    right; split; [reflexivity|]. apply IH; congruence.
Qed.

Lemma str_ltb_irrefl (a : str) : str_ltb a a = false.
Proof.
  induction a as [|x a IH]; simpl; [reflexivity|].
  now rewrite N.ltb_irrefl, N.eqb_refl, IH.
Qed.

Lemma item_lt_named (s t : str) (n m : nat) :
  s <> t -> item_lt (JString s, n) (JString t, m) = inr (str_ltb s t).
Proof.
  intros H. unfold item_lt. cbn.
  apply str_eqb_neq in H. now rewrite H.
Qed.

Lemma insert_named (s : str) (n : nat) (l : list (str * nat)) :
  ~ In s (map fst l) ->
  StronglySorted name_lt l ->
  exists l', insert (JString s, n) (named l) = inr (named l')
             /\ Permutation ((s, n) :: l) l'
             /\ StronglySorted name_lt l'.
Proof.
  induction l as [|[t m] rest IH]; intros Hnot Hs.
  - exists [(s, n)]. repeat split; auto. repeat constructor.
  - simpl in Hnot. inversion Hs as [|? ? Hrest Hall]; subst.
    assert (Hst : s <> t) by (intros ->; tauto).
    cbn [named map insert fst snd]. rewrite (item_lt_named _ _ _ _ Hst).
    cbn [ebind]. destruct (str_ltb s t) eqn:E.
    + exists ((s, n) :: (t, m) :: rest). repeat split; auto.
      constructor; [assumption|]. constructor; [exact E|].
      eapply Forall_impl; [|exact Hall].
      intros a Ha. unfold name_lt in *. simpl in *.
      eapply str_ltb_trans; eauto.
    + destruct IH as (l' & Hin & Hp & Hs'); [tauto | assumption |].
      fold (named rest). rewrite Hin. cbn [ebind].
      exists ((t, m) :: l'). repeat split.
      * rewrite perm_swap. now constructor.
      * constructor; [assumption|].
        apply Forall_forall. intros a Ha.
        apply (Permutation_in _ (Permutation_sym Hp)) in Ha.
        destruct Ha as [<- | Ha].
        -- unfold name_lt. simpl. now apply str_ltb_total.
        -- rewrite Forall_forall in Hall. now apply Hall.
Qed.

Lemma sort_into_named (l acc : list (str * nat)) :
  NoDup (map fst (acc ++ l)) ->
  StronglySorted name_lt acc ->
  exists r, sort_into (named acc) (named l) = inr (named r)
            /\ Permutation (acc ++ l) r
            /\ StronglySorted name_lt r.
Proof.
  revert acc; induction l as [|[s n] rest IH]; intros acc Hnd Hs.
  - exists acc. rewrite app_nil_r. repeat split; auto.
  - assert (Hnot : ~ In s (map fst acc)).
    { rewrite map_app in Hnd. simpl in Hnd.
      apply NoDup_remove_2 in Hnd. rewrite in_app_iff in Hnd. tauto. }
    destruct (insert_named s n acc Hnot Hs) as (acc' & Hin & Hp & Hs').
    cbn [named map sort_into fst snd]. fold (named rest).
    cbn [named map fst snd] in Hin. rewrite Hin. cbn [ebind].
    assert (Hp' : Permutation (acc ++ (s, n) :: rest) (acc' ++ rest)).
    { rewrite <- Permutation_middle. rewrite app_comm_cons.
      now apply Permutation_app_tail. }
    destruct (IH acc') as (r & Hr & Hpr & Hsr); [|assumption|].
    + eapply Permutation_NoDup; [|exact Hnd]. now apply Permutation_map.
    + exists r. repeat split; auto. now rewrite Hp'.
Qed.

Lemma counter_incr_named (l : list (str * nat)) (s : str) :
  exists l', counter_incr (named l) (JString s) = named l'
             /\ (forall x, In x (map fst l') -> In x (map fst l) \/ x = s)
             /\ (NoDup (map fst l) -> NoDup (map fst l')).
Proof.
  induction l as [|[t m] rest (l' & IH1 & IH2 & IH3)].
  - exists [(s, 1)]. simpl. repeat split.
    + intros x [H | H]; auto.
    + intros _. constructor; [easy | constructor].
  - cbn [named map counter_incr fst snd]. fold (named rest).
    destruct (key_eq (JString t) (JString s)) eqn:E.
    + exists ((t, S m) :: rest). simpl. repeat split; tauto.
    + rewrite IH1. exists ((t, m) :: l'). simpl. repeat split.
      * intros x [H | H]; [tauto | apply IH2 in H; tauto].
      * intros Hnd. inversion Hnd as [|? ? Hnot Hnd']; subst.
        constructor; [|now apply IH3].
        intros Hin. apply IH2 in Hin. destruct Hin as [Hin | ->]; [tauto|].
        now rewrite key_eq_str_refl in E.
Qed.

Lemma count_levels_named (logs : list value) (l : list (str * nat)) :
  Forall (fun log => level_name log <> None) logs ->
  NoDup (map fst l) ->
  exists l', count_levels logs (named l) = inr (named l')
             /\ NoDup (map fst l').
Proof.
  intros H; revert l; induction H as [|log rest Hlog _ IH]; intros l Hnd.
  - exists l. simpl. auto.
  - destruct log; simpl in Hlog; try congruence.
    cbn [count_levels get_level ebind]. fold (level_of fields).
    destruct (level_of fields); try congruence. cbn [hashable].
    destruct (counter_incr_named l s) as (l1 & H1 & _ & H3).
    rewrite H1. apply IH. now apply H3.
Qed.

Lemma counter_incr_pos (c : Counter) (key : value) :
  Forall (fun item => 0 < snd item) c ->
  Forall (fun item => 0 < snd item) (counter_incr c key).
Proof.
  induction 1 as [|[k n] rest Hn Hrest IH]; simpl.
  - repeat constructor.
  - destruct (key_eq k key); constructor; simpl in *; auto; lia.
Qed.

Lemma count_levels_pos (logs : list value) (c c' : Counter) :
  count_levels logs c = inr c' ->
  Forall (fun item => 0 < snd item) c ->
  Forall (fun item => 0 < snd item) c'.
Proof.
  revert c; induction logs as [|log rest IH]; simpl; intros c H Hpos.
  - now inversion H; subst.
  - destruct (get_level log) as [e|level]; simpl in H; [discriminate|].
    destruct (hashable level); [|discriminate].
    eapply IH; [exact H | now apply counter_incr_pos].
Qed.

Lemma counter_get_named_in (l : list (str * nat)) (s : str) (n : nat) :
  NoDup (map fst l) -> In (s, n) l -> counter_get (named l) (JString s) = n.
Proof.
  induction l as [|[t m] rest IH]; simpl; intros Hnd Hin; [easy|].
  inversion Hnd as [|? ? Hnot Hnd']; subst.
  destruct Hin as [Hin | Hin].
  - inversion Hin; subst. now rewrite key_eq_str_refl.
  - destruct (key_eq (JString t) (JString s)) eqn:E; [|now apply IH].
    apply key_eq_str_r in E. inversion E; subst.
    exfalso. apply Hnot. now apply (in_map fst) in Hin.
Qed.

Lemma counter_get_named_pos (l : list (str * nat)) (s : str) :
  0 < counter_get (named l) (JString s) ->
  In (s, counter_get (named l) (JString s)) l.
Proof.
  induction l as [|[t m] rest IH]; simpl; [lia|].
  destruct (key_eq (JString t) (JString s)) eqn:E; intros H.
  - apply key_eq_str_r in E. inversion E; subst. now left.
  - right. now apply IH.
Qed.

Lemma rendered_named (l : list (str * nat)) :
  rendered (named l) = map name_line l.
Proof.
  induction l as [|[s n] rest IH]; simpl; [reflexivity|].
  unfold rendered in *. simpl. now rewrite IH.
Qed.

Lemma printable_named (l : list (str * nat)) :
  forallb printable (named l) = forallb (fun item => encodable (fst item)) l.
Proof.
  induction l as [|[s n] rest IH]; simpl; [reflexivity|].
  unfold printable at 1. simpl. now rewrite encodable_ljust, IH.
Qed.

(** A name that is counted is the name of a record. *)
Lemma occurrences_pos (s : str) (logs : list value) :
  0 < occurrences s logs -> exists log, In log logs /\ level_name log = Some s.
Proof.
  unfold occurrences. induction logs as [|log rest IH]; simpl; [lia|].
  destruct (level_name log) as [t|] eqn:E.
  - destruct (str_eqb t s) eqn:Et.
    + intros _. exists log. apply str_eqb_eq in Et. subst. auto.
    + intros H. destruct (IH H) as (l & Hl & Hn). eauto.
  - intros H. destruct (IH H) as (l & Hl & Hn). eauto.
Qed.

(** The counter of a collection of dicts whose levels are names, and
    its items as they are sorted. *)
Lemma named_counts (logs : list value) :
  Forall (fun log => level_name log <> None) logs ->
  exists (c : Counter) (items : list (str * nat)),
    level_counts logs = inr c
    /\ sorted c = inr (named items)
    /\ total (named items) = List.length logs
    /\ StronglySorted name_lt items
    /\ NoDup (map fst items)
    /\ forall s n, In (s, n) items <-> 0 < n /\ n = occurrences s logs.
Proof.
  intros Hall.
  destruct (count_levels_named _ [] Hall (NoDup_nil _)) as (l & Hc & Hnd).
  destruct (sort_into_named l [] Hnd (SSorted_nil _)) as (r & Hr & Hp & Hs).
  simpl in Hp. change (named []) with (@nil (value * nat)) in *.
  assert (Hpos : Forall (fun item => 0 < snd item) (named l))
    by (eapply count_levels_pos; [exact Hc | constructor]).
  rewrite Forall_forall in Hpos.
  pose proof (fun s => count_levels_name _ _ _ s Hc) as Hg. simpl in Hg.
  exists (named l), r. split; [exact Hc|]. split; [exact Hr|].
  split; [|split; [assumption|split]].
  - rewrite <- (total_perm _ _ (sorted_perm _ _ Hr)).
    now rewrite (count_levels_total _ _ _ Hc).
  - eapply Permutation_NoDup; [|exact Hnd]. now apply Permutation_map.
  - intros s n. split.
    + intros H. apply (Permutation_in _ (Permutation_sym Hp)) in H. split.
      * apply (Hpos (JString s, n)). unfold named.
        now apply (in_map (fun item => (JString (fst item), snd item))) in H.
      * rewrite <- Hg. symmetry. now apply counter_get_named_in.
    + intros [Hn ->]. apply (Permutation_in _ Hp).
      rewrite <- Hg in *. now apply counter_get_named_pos.
Qed.

Lemma printable_name_named (log : value) :
  printable_name log -> level_name log <> None.
Proof. intros (s & H & _). congruence. Qed.

(** When the names of the records can be printed, so can the items. *)
Lemma named_items_printable (logs : list value) (items : list (str * nat)) :
  Forall printable_name logs ->
  (forall s n, In (s, n) items -> 0 < n /\ n = occurrences s logs) ->
  forallb printable (named items) = true.
Proof.
  intros Hall Hm. rewrite printable_named. apply forallb_forall.
  intros [s n] Hin. simpl. destruct (Hm _ _ Hin) as [Hn ->].
  destruct (occurrences_pos _ _ Hn) as (log & Hlog & Hname).
  rewrite Forall_forall in Hall.
  destruct (Hall _ Hlog) as (t & Ht & He). congruence.
Qed.

Lemma newline_free_line (s : str) (n : nat) :
  newline_free s -> newline_free (level_line (ljust 10 s) n).
Proof.
  unfold newline_free, level_line, ljust. intros H Hin.
  rewrite !in_app_iff in Hin.
  destruct Hin as [[Hin | Hin] | [Hin | Hin]].
  - now apply H.
  - apply repeat_spec in Hin. discriminate.
  - destruct Hin as [Hin | [Hin | []]]; discriminate.
  - destruct (str_of_nat_digits n) as [_ Hd]. rewrite Forall_forall in Hd.
    specialize (Hd _ Hin). lia.
Qed.

(** C7, as the code has it: when every record is a dict whose level is a
    [str] or is absent, and the standard output encodes these names and
    the name of the file, the report has one printed entry for each name
    that occurs, each with the number of its records and none with 0, in
    increasing lexicographic order of the names; the entry of a name
    without a newline is one line without a newline. *)
Theorem report_lines_sorted (path : str) (logs : list value) :
  logs <> [] ->
  Forall printable_name logs ->
  encodable (basename path) = true ->
  exists items : list (str * nat),
    display_summary path logs
    = (Print (header path) :: Print rule :: map name_line items
       ++ [Print rule; Print (total_line (List.length logs))], inr tt)
    /\ StronglySorted name_lt items
    /\ NoDup (map fst items)
    /\ (forall s n, In (s, n) items <-> 0 < n /\ n = occurrences s logs)
    /\ (forall s n, In (s, n) items -> newline_free s ->
          name_line (s, n) = Print (level_line (ljust 10 s) n)
          /\ newline_free (level_line (ljust 10 s) n)).
Proof.
  intros Hne Hall Hp.
  assert (Hnames : Forall (fun log => level_name log <> None) logs)
    by (eapply Forall_impl; [|exact Hall]; apply printable_name_named).
  destruct (named_counts logs Hnames)
    as (c & items & Hc & Hs & Ht & Hsorted & Hnd & Hm).
  exists items.
  split; [|split; [exact Hsorted|split; [exact Hnd|split; [exact Hm|]]]].
  - assert (Hi : forallb printable (named items) = true)
      by (apply (named_items_printable logs); [exact Hall | apply Hm]).
    rewrite (display_summary_ok _ _ _ _ Hne Hc Hs Hp Hi).
    unfold report. now rewrite rendered_named, Ht.
  - intros s n _ Hfree. split; [reflexivity | now apply newline_free_line].
Qed.

Lemma item_lt_number (x y : value * nat) :
  is_number (fst x) = true -> is_number (fst y) = true ->
  exists b, item_lt x y = inr b.
Proof.
  unfold item_lt, key_lt, is_number. intros Hx Hy.
  destruct (key_eq (fst x) (fst y)); [eauto|].
  destruct (as_number (fst x)); [|discriminate].
  destruct (as_number (fst y)); [|discriminate]. eauto.
Qed.

Lemma insert_numbers (x : value * nat) (l : list (value * nat)) :
  is_number (fst x) = true -> number_keys l ->
  exists r, insert x l = inr r /\ number_keys r.
Proof.
  intros Hx Hl; induction Hl as [|y rest Hy Hrest (r & IH1 & IH2)]; simpl.
  - exists [x]. split; [reflexivity | now constructor].
  - destruct (item_lt_number x y Hx Hy) as [[|] ->]; simpl.
    + eexists; split; [reflexivity|]. repeat constructor; assumption.
    + rewrite IH1. simpl. eexists; split; [reflexivity|].
      now constructor.
Qed.

Lemma sort_into_numbers (l acc : list (value * nat)) :
  number_keys l -> number_keys acc ->
  exists r, sort_into acc l = inr r /\ number_keys r.
Proof.
  intros Hl; revert acc; induction Hl as [|x rest Hx _ IH]; intros acc Ha.
  - exists acc. auto.
  - simpl. destruct (insert_numbers x acc Hx Ha) as (acc' & -> & Ha').
    simpl. now apply IH.
Qed.

Lemma counter_incr_numbers (c : Counter) (key : value) :
  is_number key = true -> number_keys c -> number_keys (counter_incr c key).
Proof.
  intros Hk Hc; induction Hc as [|[k n] rest Hn Hrest IH]; simpl.
  - now repeat constructor.
  - destruct (key_eq k key); constructor; auto.
Qed.

Lemma count_levels_numbers (logs : list value) (c : Counter) :
  Forall (fun log => numeric_level log = true) logs ->
  number_keys c ->
  exists c', count_levels logs c = inr c' /\ number_keys c'.
Proof.
  intros H; revert c; induction H as [|log rest Hlog _ IH]; intros c Hc.
  - exists c. auto.
  - destruct log; simpl in Hlog; try discriminate.
    cbn [count_levels get_level ebind].
    destruct (dict_get fields (lit "level")) as [v|]; [|discriminate].
    assert (Hv : is_number v = true)
      by (unfold is_number; destruct (as_number v); congruence).
    assert (Hh : hashable v = true) by (destruct v; try discriminate; auto).
    rewrite Hh. apply IH. now apply counter_incr_numbers.
Qed.

Lemma number_keys_printable (items : list (value * nat)) :
  number_keys items -> forallb printable items = true.
Proof.
  intros H. apply forallb_forall. intros [k n] Hin.
  unfold number_keys in H. rewrite Forall_forall in H.
  specialize (H _ Hin). unfold printable. simpl in *.
  destruct k; try discriminate; simpl.
  - rewrite encodable_ljust. apply plain_encodable, plain_lit.
  - rewrite encodable_ljust. apply plain_encodable, plain_lit.
  - apply plain_encodable, float_format10_plain.
Qed.

Lemma printable_rendered_length (items : list (value * nat)) :
  forallb printable items = true ->
  List.length (rendered items) = List.length items.
Proof.
  induction items as [|item rest IH]; [reflexivity|].
  simpl. intros H. apply andb_prop in H. destruct H as [Hx Hrest].
  unfold rendered in *. cbn [flat_map]. unfold printable in Hx.
  destruct (format10 (fst item)); [discriminate|].
  simpl. now rewrite (IH Hrest).
Qed.

Lemma key_eq_null (k : value) : key_eq k JNull = true -> k = JNull.
Proof. destruct k; cbn; congruence. Qed.

(** C3, as the code has it: the level is the key as it was decoded, and
    nothing turns it into text before it is counted. When the levels
    are all numbers, the report is printed, one line for each key of
    the counter, and each record is counted under its level or the key
    its level equals; only a name of the file that the standard output
    does not encode stops it, before anything is printed. When a level
    is [None] the summary does not come to its end. *)
Theorem raw_level_is_the_key :
  (forall path logs,
     logs <> [] ->
     Forall (fun log => numeric_level log = true) logs ->
     exists c items,
       level_counts logs = inr c
       /\ Permutation c items
       /\ display_summary path logs
          = (if encodable (basename path)
             then (report path items, inr tt)
             else ([], inl UnicodeEncodeError))
       /\ List.length (rendered items) = List.length c
       /\ forall fields, In (JObject fields) logs ->
            exists k n, In (k, n) c /\ 0 < n
              /\ (k = level_of fields \/ key_eq k (level_of fields) = true))
  /\ (forall path logs fields,
        In (JObject fields) logs ->
        dict_get fields (lit "level") = Some JNull ->
        forall tr, display_summary path logs <> (tr, inr tt)).
Proof.
  split.
  - intros path logs Hne Hall.
    destruct (count_levels_numbers logs [] Hall (Forall_nil _))
      as (c & Hc & Hkeys).
    destruct (sort_into_numbers c [] Hkeys (Forall_nil _))
      as (items & Hs & Hitems).
    pose proof (number_keys_printable items Hitems) as Hf.
    exists c, items. repeat split; auto.
    + now apply sorted_perm.
    + rewrite (display_summary_report _ _ _ _ Hne Hc Hs).
      destruct (encodable (basename path)) eqn:Hp.
      * now apply print_report_ok.
      * now apply print_report_unnamed.
    + rewrite (printable_rendered_length items Hf).
      symmetry. apply Permutation_length. now apply sorted_perm.
    + intros fields Hin.
      destruct (count_levels_has logs [] c fields Hc Hin)
        as (k & n & H1 & H2 & H3).
      exists k, n. auto.
  - intros path logs fields Hin Hnull tr H.
    assert (Hne : logs <> []) by (intros ->; contradiction).
    destruct (display_summary_inv path logs tr Hne H)
      as (c & items & Hc & Hs & _ & Hf & _).
    destruct (count_levels_has logs [] c fields Hc Hin)
      as (k & n & H1 & H2 & _).
    assert (Hk : k = JNull).
    { unfold level_of in H2. rewrite Hnull in H2.
      destruct H2 as [H2 | H2]; [assumption | now apply key_eq_null]. }
    subst k. apply (Permutation_in _ (sorted_perm _ _ Hs)) in H1.
    rewrite forallb_forall in Hf. specialize (Hf _ H1). discriminate.
Qed.

(** ** The whole program *)

Lemma LogParser_init_file (fs : filesystem) (path : str) (file : list str) :
  fs path = File file ->
  LogParser_init fs path
  = (Exists path :: Open path :: warnings (malformed_numbers 1 (read file)),
     match loaded file with
     | inl e => inl e
     | inr parsed => inr {| file_path := path; logs := parsed |}
     end).
Proof.
  intros Hfs. unfold LogParser_init, os_path_exists.
  rewrite Hfs. cbn [negb bind]. rewrite (_load_logs_spec _ _ _ Hfs).
  destruct (loaded file); cbn [bind ret app]; [reflexivity|].
  now rewrite app_nil_r.
Qed.

Lemma summary_error_not_missing (path : str) (logs : list value) t e :
  display_summary path logs = (t, inl e) ->
  forall msg, e <> FileNotFoundError msg.
Proof.
  intros H msg. destruct (display_summary_failure _ _ _ _ H) as (He & _).
  destruct He as [-> | [-> | ->]]; discriminate.
Qed.

(** On a file that is read to its end, [main] checks the path, opens
    the file, prints the warnings of the loader, then what the summary
    prints, then one line if the summary raised. *)
Lemma main_file (fs : filesystem) (path : str) (file : list str) t r :
  fs path = File file ->
  first_abort file = None ->
  display_summary path (decoded file) = (t, r) ->
  main fs path
  = (Exists path :: Open path :: warnings (malformed_numbers 1 file)
     ++ t ++ error_line r, inr tt).
Proof.
  intros Hfs Hnone H. unfold main.
  rewrite (LogParser_init_file _ _ _ Hfs). unfold loaded.
  rewrite Hnone, (read_clean _ Hnone). cbn [bind file_path logs].
  rewrite H. destruct r as [e|[]].
  - rewrite (main_handles _ e (summary_error_not_missing _ _ _ _ H)).
    simpl. now rewrite <- app_assoc.
  - simpl. now rewrite app_nil_r.
Qed.

(** On a file with a line that ends the load, [main] prints the
    warnings of the lines before it and the line of an unexpected
    error. *)
Lemma main_aborted (fs : filesystem) (path : str) (file : list str) e :
  fs path = File file ->
  first_abort file = Some e ->
  main fs path
  = (Exists path :: Open path :: warnings (malformed_numbers 1 (read file))
     ++ [Print (unexpected e)], inr tt).
Proof.
  intros Hfs He. unfold main.
  rewrite (LogParser_init_file _ _ _ Hfs). unfold loaded.
  rewrite He. cbn [bind].
  exact (main_handles
           (Exists path :: Open path
            :: warnings (malformed_numbers 1 (read file)))
           e (abort_not_missing e (first_abort_cases _ _ He))).
Qed.

Lemma first_abort_in (file : list str) (line : str) (e : exn) :
  In line file -> aborts line = Some e -> exists e', first_abort file = Some e'.
Proof.
  induction file as [|l rest IH]; simpl; [easy|].
  intros [-> | Hin] Ha.
  - rewrite Ha. eauto.
  - destruct (aborts l); eauto.
Qed.

Lemma warning_head (n : nat) : hd 0%N (warning n) = 87%N.
Proof. reflexivity. Qed.

Lemma unexpected_head (e : exn) : hd 0%N (unexpected e) = 10060%N.
Proof. reflexivity. Qed.

(** C5: a file with a non-blank line on which the decoder raises an
    exception that is not [JSONDecodeError] gives no collection: the
    load ends with the exception of the first such line, whatever the
    lines that decode, and [main] prints the warnings of the lines
    before it and the line of an unexpected error, and no header and no
    Total line. *)
Theorem decoder_error_loses_collection
  (fs : filesystem) (path : str) (file : list str) (line : str) (e : exn) :
  fs path = File file ->
  In line file ->
  aborts line = Some e ->
  exists e',
    first_abort file = Some e'
    /\ (e' = ValueError \/ e' = RecursionError)
    /\ _load_logs fs path
       = (Open path :: warnings (malformed_numbers 1 (read file)), inl e')
    /\ (forall parsed, snd (_load_logs fs path) <> inr parsed)
    /\ main fs path
       = (Exists path :: Open path
          :: warnings (malformed_numbers 1 (read file))
          ++ [Print (unexpected e')], inr tt)
    /\ ~ In (Print (header path)) (fst (main fs path))
    /\ forall n, ~ In (Print (total_text n)) (fst (main fs path)).
Proof.
  intros Hfs Hin Ha.
  destruct (first_abort_in _ _ _ Hin Ha) as [e' He']. exists e'.
  assert (Hload : _load_logs fs path
     = (Open path :: warnings (malformed_numbers 1 (read file)), inl e')).
  { rewrite (_load_logs_spec _ _ _ Hfs). unfold loaded. now rewrite He'. }
  assert (Hout : forall text,
            In (Print text) (fst (main fs path)) ->
            hd 0%N text = 87%N \/ hd 0%N text = 10060%N).
  { intros text. rewrite (main_aborted _ _ _ _ Hfs He'). simpl.
    rewrite in_app_iff. intros [H | [H | [H | [H | []]]]];
      try discriminate.
    - left. unfold warnings in H. apply in_map_iff in H.
      destruct H as (n & Hn & _).
      assert (Ht : text = warning n) by congruence. now subst.
    - right. assert (Ht : text = unexpected e') by congruence. now subst. }
  split; [exact He'|]. split; [now apply first_abort_cases in He'|].
  split; [exact Hload|]. split; [|split; [|split]].
  - intros parsed. rewrite Hload. discriminate.
  - now apply main_aborted.
  - intros H. apply Hout in H. destruct H as [H | H]; discriminate H.
  - intros n H. apply Hout in H. destruct H as [H | H]; discriminate H.
Qed.




(** X1: a summary raises nothing but AttributeError, TypeError and
    UnicodeEncodeError. An AttributeError comes before anything is
    printed; otherwise what is printed is nothing, or the header, the
    rule and lines of levels. In no case was a Total line printed. *)
Theorem failed_summary_prints_no_total
  (path : str) (logs : list value) (t : list event) (e : exn) :
  display_summary path logs = (t, inl e) ->
  (e = AttributeError \/ e = TypeError \/ e = UnicodeEncodeError)
  /\ (e = AttributeError -> t = [])
  /\ (t = [] \/ exists lines, t = Print (header path) :: Print rule :: lines)
  /\ forall n, ~ In (Print (total_line n)) t.
Proof.
  intros H. destruct (display_summary_failure _ _ _ _ H) as (H1 & H2 & H3).
  split; [exact H1|]. split; [exact H2|]. split.
  - destruct H3 as [H3 | (lines & H3 & _)];
      [left | right; exists lines]; exact H3.
  - intros n. exact (failure_without_total _ _ _ _ n H).
Qed.

Lemma count_levels_countable (logs : list value) (c : Counter) :
  forallb countable logs = true -> exists c', count_levels logs c = inr c'.
Proof.
  revert c; induction logs as [|log rest IH]; simpl; intros c H; [eauto|].
  apply andb_true_iff in H. destruct H as [Hlog Hrest].
  destruct log; simpl in Hlog; try discriminate.
  simpl. fold (level_of fields). rewrite Hlog. now apply IH.
Qed.

Lemma count_levels_built (logs : list value) (c c' : Counter) :
  count_levels logs c = inr c' -> forallb countable logs = true.
Proof.
  revert c; induction logs as [|log rest IH]; simpl; intros c H; [reflexivity|].
  destruct log; simpl in H; try discriminate.
  fold (level_of fields) in H. simpl.
  destruct (hashable (level_of fields)); [|discriminate].
  simpl. eapply IH; eauto.
Qed.

Lemma count_levels_first_bad (pre post : list value) (log : value)
  (c : Counter) :
  forallb countable pre = true ->
  countable log = false ->
  count_levels (pre ++ log :: post) c
  = inl (if is_dict log then TypeError else AttributeError).
Proof.
  revert c; induction pre as [|x pre IH]; simpl; intros c Hpre Hlog.
  - destruct log; simpl in *; try reflexivity.
    fold (level_of fields). now rewrite Hlog.
  - apply andb_true_iff in Hpre. destruct Hpre as [Hx Hpre].
    destruct x; simpl in Hx; try discriminate.
    simpl. fold (level_of fields). rewrite Hx. now apply IH.
Qed.

(** X2: the counter of a collection is built exactly when every record
    is a dict whose level is no list and no dict. *)
Theorem counter_built_iff (logs : list value) :
  (exists c, level_counts logs = inr c) <-> forallb countable logs = true.
Proof.
  split.
  - intros [c H]. eapply count_levels_built; eauto.
  - apply count_levels_countable.
Qed.

(** X3: the first record the counter cannot take decides how the summary
    fails, before it prints anything: with an AttributeError if that
    record is no dict, with a TypeError if it is a dict whose level is a
    list or a dict. The records after it are not looked at. *)
Theorem first_bad_record_decides
  (path : str) (pre post : list value) (log : value) :
  forallb countable pre = true ->
  countable log = false ->
  display_summary path (pre ++ log :: post)
  = ([], inl (if is_dict log then TypeError else AttributeError)).
Proof.
  intros Hpre Hlog. apply display_summary_count_fails.
  now apply count_levels_first_bad.
Qed.

Lemma rendered_prints (items : list (value * nat)) :
  forallb is_print (rendered items) = true.
Proof.
  induction items as [|item rest IH]; [reflexivity|].
  unfold rendered in *. simpl. destruct (format10 (fst item)); simpl; auto.
Qed.

(** The summary does nothing but print. *)
Lemma display_summary_prints (path : str) (logs : list value) t r :
  display_summary path logs = (t, r) -> forallb is_print t = true.
Proof.
  intros H. destruct logs as [|log rest].
  { rewrite display_summary_empty in H. inversion H; reflexivity. }
  destruct r as [e|[]].
  - destruct (display_summary_failure _ _ _ _ H) as (_ & _ & [-> | Hl]);
      [reflexivity|].
    destruct Hl as (lines & -> & Hl). simpl.
    apply forallb_forall. intros ev Hin. rewrite Forall_forall in Hl.
    destruct (Hl _ Hin) as (text & c & ->). reflexivity.
  - destruct (display_summary_inv path (log :: rest) t) as
      (c & items & _ & _ & _ & _ & ->); [discriminate | assumption |].
    unfold report. simpl. rewrite forallb_app, rendered_prints. reflexivity.
Qed.

Lemma warnings_print (ns : list nat) : forallb is_print (warnings ns) = true.
Proof. unfold warnings. induction ns; simpl; auto. Qed.

(** X4: [main] ends normally in every case but one: for a path that
    does not exist and that the standard output does not encode, it
    ends with a UnicodeEncodeError and has printed nothing. It first
    asks whether the path exists; for a path that exists it then opens
    the file, once; everything after that is printing. *)
Theorem main_outcome (fs : filesystem) (filename : str) :
  exists rest r,
    main fs filename = (Exists filename :: rest, r)
    /\ (fs filename = Missing ->
        (encodable filename = true ->
         rest = [Print (not_found_line filename)] /\ r = inr tt)
        /\ (encodable filename = false ->
            rest = [] /\ r = inl UnicodeEncodeError))
    /\ (fs filename <> Missing ->
        r = inr tt
        /\ exists prints, rest = Open filename :: prints
                          /\ forallb is_print prints = true).
Proof.
  destruct (fs filename) as [| |file] eqn:Hfs.
  - assert (Hm : main fs filename
       = (if encodable filename
          then ([Exists filename; Print (not_found_line filename)], inr tt)
          else ([Exists filename], inl UnicodeEncodeError))).
    { unfold main, LogParser_init, os_path_exists. rewrite Hfs.
      cbn [negb bind raise try_except str_of_exn].
      pose proof (encodable_not_found_line filename) as He.
      unfold not_found_line, not_found in *. unfold print. rewrite He.
      destruct (encodable filename); reflexivity. }
    destruct (encodable filename) eqn:He.
    + exists [Print (not_found_line filename)], (inr tt).
      split; [exact Hm|]. split; [|congruence].
      intros _. split; [auto | discriminate].
    + exists [], (inl UnicodeEncodeError).
      split; [exact Hm|]. split; [|congruence].
      intros _. split; [discriminate | auto].
  - exists [Open filename; Print (unexpected OSError)], (inr tt).
    split; [|split].
    + unfold main, LogParser_init, _load_logs, os_path_exists, open.
      rewrite Hfs. cbn [negb bind].
      apply (main_handles [Exists filename; Open filename] OSError).
      intros msg; discriminate.
    + discriminate.
    + intros _. split; [reflexivity|]. eexists. split; reflexivity.
  - destruct (first_abort file) as [e|] eqn:Ha.
    + eexists _, _. split; [apply (main_aborted _ _ _ _ Hfs Ha)|].
      split; [discriminate|].
      intros _. split; [reflexivity|]. eexists. split; [reflexivity|].
      now rewrite forallb_app, warnings_print.
    + destruct (display_summary filename (decoded file)) as [t r] eqn:Hs.
      eexists _, _. split; [apply (main_file fs filename file t r Hfs Ha Hs)|].
      split; [discriminate|].
      intros _. split; [reflexivity|]. eexists. split; [reflexivity|].
      rewrite !forallb_app, warnings_print,
        (display_summary_prints _ _ _ _ Hs).
      destruct r; reflexivity.
Qed.

(** X5: for a path that exists and cannot be opened, [main] prints one
    line, that of an unexpected error, after the check and the attempt
    to open; no warning and nothing of a summary is printed. *)
Theorem unreadable_file_reported (fs : filesystem) (path : str) :
  fs path = Unreadable ->
  LogParser_init fs path = ([Exists path; Open path], inl OSError)
  /\ main fs path
     = ([Exists path; Open path; Print (unexpected OSError)], inr tt).
Proof.
  intros H.
  assert (Hinit : LogParser_init fs path
                  = ([Exists path; Open path], inl OSError)).
  { unfold LogParser_init, _load_logs, os_path_exists, open.
    rewrite H. reflexivity. }
  split; [exact Hinit|]. unfold main. rewrite Hinit. cbn [bind].
  apply (main_handles [Exists path; Open path] OSError).
  intros msg; discriminate.
Qed.

(** X6: on a file that can be opened, the output of [main] starts with
    the warnings of the loader. If a line makes the decoder raise an
    exception that is not [JSONDecodeError], the warnings are those of
    the lines before the first such line, one line for the unexpected
    error follows and the summary is not run. Otherwise there follow
    what the summary of the loaded collection prints and, if the
    summary raised, one line for the unexpected error. So every warning
    comes before the report. *)
Theorem main_runs_loader_then_summary
  (fs : filesystem) (path : str) (file : list str)
  (t : list event) (r : exn + unit) :
  fs path = File file ->
  display_summary path (decoded file) = (t, r) ->
  main fs path
  = (Exists path :: Open path :: warnings (malformed_numbers 1 (read file))
     ++ match first_abort file with
        | Some e => [Print (unexpected e)]
        | None => t ++ error_line r
        end, inr tt).
Proof.
  intros Hfs H. destruct (first_abort file) as [e|] eqn:Ha.
  - now apply main_aborted.
  - rewrite (read_clean _ Ha). now apply main_file.
Qed.
Lemma key_eq_kind (a b : value) :
  key_eq a b = true -> kind_of a = kind_of b.
Proof. destruct a, b; cbn; intros H; try reflexivity; discriminate. Qed.

Lemma item_lt_kind (x y : value * nat) (b : bool) :
  item_lt x y = inr b -> kind_of (fst x) = kind_of (fst y).
Proof.
  destruct x as [k1 n1], y as [k2 n2]. unfold item_lt. simpl.
  destruct (key_eq k1 k2) eqn:E; [intros _; now apply key_eq_kind|].
  destruct k1, k2; cbn; intros H; try reflexivity; discriminate.
Qed.

Lemma insert_same_kind (x : value * nat) (l r : list (value * nat)) :
  insert x l = inr r -> same_kind l -> same_kind r.
Proof.
  intros H Hl.
  assert (Hx : forall y, In y l -> kind_of (fst x) = kind_of (fst y)).
  { destruct l as [|y0 rest]; [easy|]. simpl in H.
    destruct (item_lt x y0) as [e|b] eqn:E; [discriminate|].
    apply item_lt_kind in E. intros y Hy. rewrite E.
    apply Hl; [now left | assumption]. }
  apply insert_perm in H.
  intros a b Ha Hb.
  apply (Permutation_in _ (Permutation_sym H)) in Ha.
  apply (Permutation_in _ (Permutation_sym H)) in Hb.
  destruct Ha as [<- | Ha], Hb as [<- | Hb]; auto.
  symmetry. auto.
Qed.

Lemma sort_into_same_kind (l acc r : list (value * nat)) :
  sort_into acc l = inr r -> same_kind acc -> same_kind r.
Proof.
  revert acc; induction l as [|x rest IH]; simpl; intros acc H Hacc.
  - now inversion H; subst.
  - destruct (insert x acc) as [e|acc'] eqn:E; simpl in H; [discriminate|].
    eapply IH; [exact H|]. eapply insert_same_kind; eauto.
Qed.

(** X10: when the records are dicts with hashable levels and two of
    them have levels of different kinds (a [str] and a number, or [None]
    and anything else; an absent level is the [str] "UNKNOWN"), the
    summary prints the header and the rule and then raises a TypeError
    while it sorts: no line of a level and no Total line is printed.
    Only a name of the file that the standard output does not encode
    stops it earlier, before anything is printed. *)
Theorem mixed_levels_fail_sorting
  (path : str) (logs : list value) (fields1 fields2 : list (str * value)) :
  forallb countable logs = true ->
  In (JObject fields1) logs ->
  In (JObject fields2) logs ->
  kind_of (level_of fields1) <> kind_of (level_of fields2) ->
  display_summary path logs
  = if encodable (basename path)
    then ([Print (header path); Print rule], inl TypeError)
    else ([], inl UnicodeEncodeError).
Proof.
  intros Hall H1 H2 Hk.
  destruct (count_levels_countable logs [] Hall) as [c Hc].
  destruct (count_levels_has logs [] c fields1 Hc H1) as (k1 & n1 & Hin1 & Hm1 & _).
  destruct (count_levels_has logs [] c fields2 Hc H2) as (k2 & n2 & Hin2 & Hm2 & _).
  assert (Hk1 : kind_of k1 = kind_of (level_of fields1))
    by (destruct Hm1 as [-> | Hm1]; [reflexivity | now apply key_eq_kind]).
  assert (Hk2 : kind_of k2 = kind_of (level_of fields2))
    by (destruct Hm2 as [-> | Hm2]; [reflexivity | now apply key_eq_kind]).
  assert (Hne : logs <> []) by (intros ->; contradiction).
  fold (level_counts logs) in Hc.
  destruct (sorted c) as [e|items] eqn:Hs.
  - rewrite (display_summary_sort_fails _ _ _ _ Hne Hc Hs).
    apply sort_into_error in Hs. now subst.
  - exfalso. apply Hk. rewrite <- Hk1, <- Hk2.
    assert (Hsame : same_kind items)
      by (eapply sort_into_same_kind; [exact Hs | intros ? ? []]).
    pose proof (sorted_perm _ _ Hs) as Hp.
    apply (Hsame (k1, n1) (k2, n2)); eapply Permutation_in; eauto.
Qed.

Lemma name_sorted_unique (l1 l2 : list (str * nat)) :
  StronglySorted name_lt l1 -> StronglySorted name_lt l2 ->
  (forall x, In x l1 <-> In x l2) -> l1 = l2.
Proof.
  intros H1; revert l2; induction H1 as [|a t1 Ht1 IH Ha]; intros l2 H2 Hin.
  - destruct l2 as [|b t2]; [reflexivity|].
    exfalso. apply (Hin b). now left.
  - destruct H2 as [|b t2 Ht2 Hb].
    + exfalso. apply (Hin a). now left.
    + rewrite Forall_forall in Ha, Hb.
      assert (Hirr : forall x, ~ name_lt x x)
        by (intros x Hx; unfold name_lt in Hx;
            now rewrite str_ltb_irrefl in Hx).
      assert (Hab : a = b).
      { destruct (proj1 (Hin a) (or_introl eq_refl)) as [Hab | Hab]; auto.
        destruct (proj2 (Hin b) (or_introl eq_refl)) as [Hba | Hba]; auto.
        exfalso. apply (Hirr a). unfold name_lt in *.
        eapply str_ltb_trans; [apply (Ha _ Hba) | apply (Hb _ Hab)]. }
      subst b. f_equal. apply IH; [assumption|].
      intros x. split; intros Hx.
      * destruct (proj1 (Hin x) (or_intror Hx)) as [<- | Hx']; auto.
        exfalso. apply (Hirr a). now apply Ha.
      * destruct (proj2 (Hin x) (or_intror Hx)) as [<- | Hx']; auto.
        exfalso. apply (Hirr a). now apply Hb.
Qed.

Lemma occurrences_perm (s : str) (logs logs' : list value) :
  Permutation logs logs' -> occurrences s logs = occurrences s logs'.
Proof.
  intros H. unfold occurrences. induction H; simpl; auto.
  - destruct (match level_name x with Some t => str_eqb t s | None => false end);
      simpl; auto.
  - destruct (match level_name x with Some t => str_eqb t s | None => false end),
             (match level_name y with Some t => str_eqb t s | None => false end);
      reflexivity.
  - congruence.
Qed.

(** X11: when every record is a dict whose level is a [str] or is
    absent, the summary prints the same for the records in any order. *)
Theorem report_ignores_record_order
  (path : str) (logs logs' : list value) :
  Permutation logs logs' ->
  Forall (fun log => level_name log <> None) logs ->
  display_summary path logs = display_summary path logs'.
Proof.
  intros Hp Hall.
  destruct logs as [|log rest].
  - apply Permutation_nil in Hp. now subst.
  - assert (Hne : log :: rest <> []) by discriminate.
    assert (Hne' : logs' <> [])
      by (intros ->; apply Permutation_sym, Permutation_nil in Hp;
          discriminate).
    assert (Hall' : Forall (fun log => level_name log <> None) logs').
    { rewrite Forall_forall in *. intros x Hx. apply Hall.
      now apply (Permutation_in _ (Permutation_sym Hp)). }
    destruct (named_counts _ Hall) as (c1 & l1 & Hc1 & Hs1 & _ & Hl1 & _ & Hm1).
    destruct (named_counts _ Hall') as (c2 & l2 & Hc2 & Hs2 & _ & Hl2 & _ & Hm2).
    rewrite (display_summary_report _ _ _ _ Hne Hc1 Hs1).
    rewrite (display_summary_report _ _ _ _ Hne' Hc2 Hs2).
    replace l2 with l1; [reflexivity|].
    apply name_sorted_unique; auto.
    intros [s n]. rewrite Hm1, Hm2, (occurrences_perm s _ _ Hp). tauto.
Qed.

Lemma basename_fold (name acc : str) :
  no_slash name ->
  fold_left (fun acc c => if (c =? 47)%N then [] else acc ++ [c]) name acc
  = acc ++ name.
Proof.
  intros H; revert acc; induction H as [|c rest Hc _ IH]; intros acc; simpl.
  - now rewrite app_nil_r.
  - apply N.eqb_neq in Hc. rewrite Hc, IH, <- app_assoc. reflexivity.
Qed.

Lemma basename_plain (name : str) : no_slash name -> basename name = name.
Proof. intros H. exact (basename_fold name [] H). Qed.

Lemma basename_of_path (dir name : str) :
  no_slash name -> basename (dir ++ 47%N :: name) = name.
Proof.
  intros H. unfold basename. rewrite fold_left_app. simpl.
  exact (basename_fold name [] H).
Qed.

(** X12: the summary shows the name of the file and not where it is:
    for a name without slash, the output for a path that ends in a slash
    and that name is the output for the name alone. *)
Theorem report_names_file_only (dir name : str) (logs : list value) :
  no_slash name ->
  basename (dir ++ 47%N :: name) = name
  /\ display_summary (dir ++ 47%N :: name) logs = display_summary name logs.
Proof.
  intros H. split; [now apply basename_of_path|].
  assert (Hh : header (dir ++ 47%N :: name) = header name).
  { unfold header.
    now rewrite (basename_of_path dir name H), (basename_plain name H). }
  unfold display_summary. now rewrite Hh.
Qed.


Lemma occurrences_app (s : str) (l1 l2 : list value) :
  occurrences s (l1 ++ l2) = occurrences s l1 + occurrences s l2.
Proof. unfold occurrences. now rewrite filter_app, length_app. Qed.

(** X14: the counter of two collections put together is built when it
    is built for each; it then counts under each name the sum of the two
    counts, and its total is the sum of the two totals. *)
Theorem counts_add_over_concatenation (logs1 logs2 : list value) (c : Counter) :
  level_counts (logs1 ++ logs2) = inr c ->
  exists c1 c2,
    level_counts logs1 = inr c1
    /\ level_counts logs2 = inr c2
    /\ total c = total c1 + total c2
    /\ forall s, counter_get c (JString s)
                 = counter_get c1 (JString s) + counter_get c2 (JString s).
Proof.
  intros Hc. pose proof (count_levels_built _ _ _ Hc) as Hall.
  rewrite forallb_app in Hall. apply andb_true_iff in Hall.
  destruct Hall as [Hall1 Hall2].
  destruct (count_levels_countable logs1 [] Hall1) as [c1 Hc1].
  destruct (count_levels_countable logs2 [] Hall2) as [c2 Hc2].
  exists c1, c2. repeat split; auto.
  - rewrite (count_levels_total _ _ _ Hc), (count_levels_total _ _ _ Hc1),
            (count_levels_total _ _ _ Hc2), length_app. reflexivity.
  - intros s.
    rewrite (count_levels_name _ _ _ s Hc), (count_levels_name _ _ _ s Hc1),
            (count_levels_name _ _ _ s Hc2), occurrences_app. reflexivity.
Qed.

Lemma counter_incr_keys (c : Counter) (key : value) (x : value * nat) :
  In x (counter_incr c key) ->
  fst x = key \/ exists y, In y c /\ fst y = fst x.
Proof.
  induction c as [|[k n] rest IH]; simpl.
  - intros [<- | []]. now left.
  - destruct (key_eq k key); simpl.
    + intros [<- | H]; right; eexists; split; eauto; now left.
    + intros [<- | H].
      * right. eexists; split; [now left | reflexivity].
      * destruct (IH H) as [Hk | (y & Hy & Hf)]; [now left|].
        right. exists y. auto.
Qed.

Lemma counter_incr_unmatched (c : Counter) (key : value) :
  ForallOrdPairs (fun a b => key_eq (fst a) (fst b) = false) c ->
  ForallOrdPairs (fun a b => key_eq (fst a) (fst b) = false)
                 (counter_incr c key).
Proof.
  induction 1 as [|[k n] rest Hk Hrest IH]; simpl.
  - repeat constructor.
  - destruct (key_eq k key) eqn:E.
    + constructor; assumption.
    + constructor; [|assumption].
      apply Forall_forall. intros x Hx. simpl.
      destruct (counter_incr_keys _ _ _ Hx) as [-> | (y & Hy & <-)];
        [assumption|].
      rewrite Forall_forall in Hk. now apply (Hk y).
Qed.

Lemma counter_incr_hashable (c : Counter) (key : value) :
  hashable key = true ->
  Forall (fun item => hashable (fst item) = true) c ->
  Forall (fun item => hashable (fst item) = true) (counter_incr c key).
Proof.
  intros Hk H. apply Forall_forall. intros x Hx.
  destruct (counter_incr_keys _ _ _ Hx) as [-> | (y & Hy & <-)];
    [assumption|].
  rewrite Forall_forall in H. now apply H.
Qed.

Lemma count_levels_invariant (logs : list value) (c0 c : Counter) :
  count_levels logs c0 = inr c ->
  ForallOrdPairs (fun a b => key_eq (fst a) (fst b) = false) c0 ->
  Forall (fun item => hashable (fst item) = true) c0 ->
  ForallOrdPairs (fun a b => key_eq (fst a) (fst b) = false) c
  /\ Forall (fun item => hashable (fst item) = true) c
  /\ forall x, In x c ->
       (exists y, In y c0 /\ fst y = fst x)
       \/ exists fields, In (JObject fields) logs /\ level_of fields = fst x.
Proof.
  revert c0; induction logs as [|log rest IH]; simpl; intros c0 H Hu Hh.
  - inversion H; subst. repeat split; auto. intros x Hx. left. eauto.
  - destruct log; simpl in H; try discriminate.
    fold (level_of fields) in H.
    destruct (hashable (level_of fields)) eqn:Hk; [|discriminate].
    destruct (IH _ H (counter_incr_unmatched _ _ Hu)
                 (counter_incr_hashable _ _ Hk Hh)) as (H1 & H2 & H3).
    repeat split; auto. intros x Hx.
    destruct (H3 x Hx) as [(y & Hy & Hf) | (f & Hin & Hf)].
    + destruct (counter_incr_keys _ _ _ Hy) as [Hy' | (z & Hz & Hzf)].
      * right. exists fields. split; [now left | congruence].
      * left. exists z. split; [assumption | congruence].
    + right. exists f. auto.
Qed.

(** X15: in the counter of a collection every key is the level of one
    of the records, has a hash and a count of 1 at least, and matches no
    key that comes before it: no level is counted under two keys. *)
Theorem counter_keys_come_from_records (logs : list value) (c : Counter) :
  level_counts logs = inr c ->
  Forall (fun item => 0 < snd item /\ hashable (fst item) = true) c
  /\ ForallOrdPairs (fun a b => key_eq (fst a) (fst b) = false) c
  /\ forall k n, In (k, n) c ->
       exists fields, In (JObject fields) logs /\ level_of fields = k.
Proof.
  intros Hc.
  destruct (count_levels_invariant logs [] c Hc (FOP_nil _) (Forall_nil _))
    as (H1 & H2 & H3).
  pose proof (count_levels_pos _ _ _ Hc (Forall_nil _)) as Hpos.
  split; [|split; [assumption|]].
  - rewrite Forall_forall in *. intros x Hx. split; auto.
  - intros k n Hin. destruct (H3 _ Hin) as [(y & [] & _) | H]; exact H.
Qed.

Lemma text_level_name (fields : list (str * value)) :
  kind_of (level_of fields) = Text -> level_name (JObject fields) <> None.
Proof. simpl. destruct (level_of fields); simpl; congruence. Qed.

Lemma number_level_numeric (fields : list (str * value)) :
  kind_of (level_of fields) = Number -> numeric_level (JObject fields) = true.
Proof.
  unfold level_of, numeric_level, is_number.
  destruct (dict_get fields (lit "level")) as [v|]; [|discriminate].
  destruct v; simpl; congruence.
Qed.

Lemma printable_kind (item : value * nat) :
  printable item = true ->
  kind_of (fst item) = Text \/ kind_of (fst item) = Number.
Proof.
  unfold printable. destruct (fst item); simpl; auto; discriminate.
Qed.

(** A key that matches a printable key of the counter is printable. *)
Lemma key_eq_printable (k v : value) (n m : nat) :
  k = v \/ key_eq k v = true ->
  printable (k, n) = true -> printable (v, m) = true.
Proof.
  intros [-> | Hk] Hp; [exact Hp|].
  destruct k, v; cbn in Hk; try discriminate; try exact Hp;
    try (apply str_eqb_eq in Hk; subst; exact Hp);
    unfold printable; simpl;
    try (rewrite encodable_ljust; apply plain_encodable, plain_lit);
    apply plain_encodable, float_format10_plain.
Qed.

(** X16: on a collection that is not empty the summary comes to its end
    exactly when the standard output encodes the name of the file,
    every record is a dict whose level can be formatted and printed,
    and the levels are all of one kind, all [str] (an absent level
    being "UNKNOWN") or all numbers. *)
Theorem summary_completes_iff (path : str) (logs : list value) :
  logs <> [] ->
  (exists t, display_summary path logs = (t, inr tt))
  <-> encodable (basename path) = true
      /\ exists k, (k = Text \/ k = Number)
                   /\ Forall (fun log => exists fields,
                                log = JObject fields
                                /\ kind_of (level_of fields) = k
                                /\ printable_level log = true) logs.
Proof.
  intros Hne. split.
  - intros [t H].
    destruct (display_summary_inv path logs t Hne H)
      as (c & items & Hc & Hs & Hpath & Hf & _).
    split; [exact Hpath|].
    pose proof (count_levels_built _ _ _ Hc) as Hall.
    assert (Hsame : same_kind items)
      by (eapply sort_into_same_kind; [exact Hs | intros ? ? []]).
    pose proof (sorted_perm _ _ Hs) as Hp.
    rewrite forallb_forall in Hf.
    assert (Hkey : forall fields, In (JObject fields) logs ->
              exists k n, In (k, n) items
                          /\ kind_of k = kind_of (level_of fields)
                          /\ printable (level_of fields, 0) = true).
    { intros fields Hin.
      destruct (count_levels_has logs [] c fields Hc Hin)
        as (k & n & Hk & Hm & _).
      apply (Permutation_in _ Hp) in Hk.
      exists k, n. split; [exact Hk|]. split.
      - destruct Hm as [-> | Hm]; [reflexivity | now apply key_eq_kind].
      - apply (key_eq_printable k _ n 0 Hm). now apply Hf. }
    destruct logs as [|log0 rest]; [congruence|].
    assert (H0 : countable log0 = true)
      by (simpl in Hall; now apply andb_true_iff in Hall).
    destruct log0 as [| | | | | |fields0]; try discriminate.
    destruct (Hkey fields0 (or_introl eq_refl))
      as (k0 & n0 & Hin0 & Hk0 & _).
    exists (kind_of (level_of fields0)). split.
    + rewrite <- Hk0. apply (printable_kind (k0, n0)). now apply Hf.
    + apply Forall_forall. intros log Hlog.
      rewrite forallb_forall in Hall. specialize (Hall _ Hlog).
      destruct log as [| | | | | |fields]; try discriminate.
      exists fields. split; [reflexivity|].
      destruct (Hkey fields Hlog) as (k & n & Hin & Hk & Hpr).
      split; [|exact Hpr].
      rewrite <- Hk, <- Hk0. apply (Hsame (k, n) (k0, n0)); assumption.
  - intros (Hpath & k & [-> | ->] & Hall).
    + assert (Hnames : Forall printable_name logs).
      { eapply Forall_impl; [|exact Hall].
        intros log (fields & -> & Hk & Hpr). unfold printable_name.
        simpl in *. unfold printable in Hpr. simpl in Hpr.
        destruct (level_of fields); try discriminate.
        simpl in Hpr. rewrite encodable_ljust in Hpr. eauto. }
      assert (Hnamed : Forall (fun log => level_name log <> None) logs)
        by (eapply Forall_impl; [|exact Hnames]; apply printable_name_named).
      destruct (named_counts logs Hnamed)
        as (c & items & Hc & Hs & _ & _ & _ & Hm).
      exists (report path (named items)).
      apply (display_summary_ok _ _ _ _ Hne Hc Hs Hpath).
      apply (named_items_printable logs); [exact Hnames | apply Hm].
    + assert (Hnum : Forall (fun log => numeric_level log = true) logs).
      { eapply Forall_impl; [|exact Hall].
        intros log (fields & -> & Hk & _). now apply number_level_numeric. }
      destruct (count_levels_numbers logs [] Hnum (Forall_nil _))
        as (c & Hc & Hkeys).
      destruct (sort_into_numbers c [] Hkeys (Forall_nil _))
        as (items & Hs & Hitems).
      exists (report path items).
      apply display_summary_ok with (c := c); auto.
      now apply number_keys_printable.
Qed.

End Properties.

(** * The properties on concrete inputs *)



(** C10 on the record [{"level": null}]: it is counted under [None], not
    under "UNKNOWN". *)
Lemma present_level_is_the_key_witness :
  dict_get [(lit "level", JNull)] (lit "level") = Some JNull
  /\ In (JObject [(lit "level", JNull)]) logs_null
  /\ level_counts logs_null = inr [(JNull, 1)]
  /\ get_level (record "level" JNull) = inr JNull
  /\ level_name (record "level" JNull) <> Some unknown
  /\ (exists k n, In (k, n) [(JNull, 1)]
                  /\ (k = JNull \/ key_eq k JNull = true) /\ 0 < n)
  /\ counter_get [(JNull, 1)] (JString unknown) = occurrences unknown logs_null.
Proof.
  assert (H1 : dict_get [(lit "level", JNull)] (lit "level") = Some JNull)
    by reflexivity.
  assert (H2 : In (JObject [(lit "level", JNull)]) logs_null)
    by (left; reflexivity).
  assert (H3 : level_counts logs_null = inr [(JNull, 1)]) by reflexivity.
  destruct (present_level_is_the_key [(lit "level", JNull)] JNull H1)
    as (Hget & Hname & Hall).
  destruct (Hall logs_null [(JNull, 1)] H2 H3) as [Hin Hunknown].
  repeat split; try assumption.
  apply Hname. discriminate.
Defined.

(** C2: the line [42] is valid JSON and is loaded, and the record has no
    level: it is not counted under "UNKNOWN", the summary fails and
    [main] reports an unexpected error. *)
Lemma record_42_not_counted :
  _load_logs (disk [line_42]) path_a = ([Open path_a], inr logs_42)
  /\ get_level (JInt 42) = inl AttributeError
  /\ level_counts logs_42 = inl AttributeError
  /\ display_summary path_a logs_42 = ([], inl AttributeError)
  /\ main (disk [line_42]) path_a
     = ([Exists path_a; Open path_a;
         Print (cross ++ lit " An unexpected error occurred: "
                ++ message AttributeError)],
        inr tt).
Proof. repeat split. Qed.

(** C2, as the code has it, on the record 42. *)
Lemma level_read_from_dicts_witness :
  is_dict (JInt 42) = false
  /\ In (JInt 42) logs_42
  /\ get_level (JInt 42) = inl AttributeError
  /\ exists e, display_summary path_a logs_42 = ([], inl e).
Proof.
  destruct level_read_from_dicts as (_ & _ & _ & H).
  assert (H1 : is_dict (JInt 42) = false) by reflexivity.
  assert (H2 : In (JInt 42) logs_42) by (left; reflexivity).
  destruct (H (JInt 42) H1) as [Hget Hall].
  exact (conj H1 (conj H2 (conj Hget (Hall path_a logs_42 H2)))).
Defined.

(** C3: for the one record [{"level": null}] the header and the rule
    are printed, then formatting the level raises: no line of the level,
    no Total line. *)
Lemma null_level_stops_report :
  display_summary path_a logs_null
  = ([Print (header path_a); Print rule], inl TypeError)
  /\ forall tr, display_summary path_a logs_null <> (tr, inr tt).
Proof. split; [reflexivity | intros tr H; discriminate H]. Qed.

(** C3, as the code has it, on the levels 10 and 9 and on [None]. *)
Lemma raw_level_is_the_key_witness :
  logs_10_9 <> []
  /\ Forall (fun log => numeric_level log = true) logs_10_9
  /\ In (JObject [(lit "level", JNull)]) logs_null
  /\ dict_get [(lit "level", JNull)] (lit "level") = Some JNull
  /\ (exists c items,
        level_counts logs_10_9 = inr c
        /\ Permutation c items
        /\ display_summary path_a logs_10_9 = (report path_a items, inr tt)
        /\ List.length (rendered items) = List.length c
        /\ forall fields, In (JObject fields) logs_10_9 ->
             exists k n, In (k, n) c /\ 0 < n
               /\ (k = level_of fields \/ key_eq k (level_of fields) = true))
  /\ forall tr, display_summary path_a logs_null <> (tr, inr tt).
Proof.
  assert (H1 : logs_10_9 <> []) by discriminate.
  assert (H2 : Forall (fun log => numeric_level log = true) logs_10_9)
    by (repeat constructor).
  assert (H3 : In (JObject [(lit "level", JNull)]) logs_null)
    by (left; reflexivity).
  assert (H4 : dict_get [(lit "level", JNull)] (lit "level") = Some JNull)
    by reflexivity.
  exact (conj H1 (conj H2 (conj H3 (conj H4
    (conj (proj1 raw_level_is_the_key path_a logs_10_9 H1 H2)
          (proj2 raw_level_is_the_key path_a logs_null _ H3 H4)))))).
Defined.

(** C4: the second line of the file is 100000 opening brackets, which
    is no JSON document. No warning is printed for it, the load ends
    with the RecursionError, the malformed third line is not read, the
    record of the first line is lost and [main] prints the line of an
    unexpected error. *)
Lemma decoder_error_aborts_load_witness :
  disk ([line_info] ++ line_deep :: [line_bad; line_error]) path_a
  = File ([line_info] ++ line_deep :: [line_bad; line_error])
  /\ first_abort [line_info] = None
  /\ aborts line_deep = Some RecursionError
  /\ _load_logs (disk [line_info; line_deep; line_bad; line_error]) path_a
     = ([Open path_a], inl RecursionError)
  /\ (forall m, 2 <= m ->
        ~ In (Print (warning m))
             (fst (_load_logs (disk [line_info; line_deep; line_bad;
                                     line_error]) path_a)))
  /\ main (disk [line_info; line_deep; line_bad; line_error]) path_a
     = ([Exists path_a; Open path_a; Print (unexpected RecursionError)],
        inr tt).
Proof.
  assert (H1 : disk ([line_info] ++ line_deep :: [line_bad; line_error]) path_a
               = File ([line_info] ++ line_deep :: [line_bad; line_error]))
    by reflexivity.
  assert (H2 : first_abort [line_info] = None) by reflexivity.
  assert (H3 : aborts line_deep = Some RecursionError)
    by (vm_compute; reflexivity).
  destruct (decoder_error_aborts_load
              (disk ([line_info] ++ line_deep :: [line_bad; line_error]))
              path_a [line_info] [line_bad; line_error] line_deep
              RecursionError H1 H2 H3)
    as (Hload & Hwarn & _ & Hmain).
  exact (conj H1 (conj H2 (conj H3 (conj Hload (conj Hwarn Hmain))))).
Defined.

(** C5: the second line of the file is an integer of 4301 digits, a
    JSON document. The load ends with the ValueError: there is no
    collection, although the first and the third line decode, and
    [main] prints the line of an unexpected error and no report. *)
Lemma decoder_error_loses_collection_witness :
  disk [line_info; line_digits; line_error] path_a
  = File [line_info; line_digits; line_error]
  /\ In line_digits [line_info; line_digits; line_error]
  /\ aborts line_digits = Some ValueError
  /\ valid line_info = true /\ valid line_error = true
  /\ exists e',
       first_abort [line_info; line_digits; line_error] = Some e'
       /\ (e' = ValueError \/ e' = RecursionError)
       /\ _load_logs (disk [line_info; line_digits; line_error]) path_a
          = (Open path_a
             :: warnings (malformed_numbers 1
                            (read [line_info; line_digits; line_error])),
             inl e')
       /\ (forall parsed,
             snd (_load_logs (disk [line_info; line_digits; line_error])
                    path_a) <> inr parsed)
       /\ main (disk [line_info; line_digits; line_error]) path_a
          = (Exists path_a :: Open path_a
             :: warnings (malformed_numbers 1
                            (read [line_info; line_digits; line_error]))
             ++ [Print (unexpected e')], inr tt)
       /\ ~ In (Print (header path_a))
               (fst (main (disk [line_info; line_digits; line_error]) path_a))
       /\ forall n,
            ~ In (Print (total_text n))
                 (fst (main (disk [line_info; line_digits; line_error])
                         path_a)).
Proof.
  assert (H1 : disk [line_info; line_digits; line_error] path_a
               = File [line_info; line_digits; line_error]) by reflexivity.
  assert (H2 : In line_digits [line_info; line_digits; line_error])
    by (right; left; reflexivity).
  assert (H3 : aborts line_digits = Some ValueError)
    by (vm_compute; reflexivity).
  assert (H4 : valid line_info = true) by reflexivity.
  assert (H5 : valid line_error = true) by reflexivity.
  exact (conj H1 (conj H2 (conj H3 (conj H4 (conj H5
    (decoder_error_loses_collection
       (disk [line_info; line_digits; line_error]) path_a
       [line_info; line_digits; line_error] line_digits ValueError
       H1 H2 H3)))))).
Defined.

(** C6 on [file_mixed], whose third line is blank. *)
Lemma blank_line_skipped_witness :
  disk file_mixed path_a
  = File ([line_info; line_bad] ++ line_blank :: [line_error; line_bad])
  /\ blank line_blank = true
  /\ first_abort ([line_info; line_bad] ++ [line_error; line_bad]) = None
  /\ exists w1 w2 : list event,
       load_lines 1 [line_info; line_bad] []
       = (w1, inr (decoded [line_info; line_bad]))
       /\ load_lines 4 [line_error; line_bad] []
          = (w2, inr (decoded [line_error; line_bad]))
       /\ _load_logs (disk file_mixed) path_a
          = (Open path_a :: w1 ++ w2,
             inr (decoded ([line_info; line_bad] ++ [line_error; line_bad])))
       /\ ~ In (Print (warning 3)) (w1 ++ w2).
Proof.
  assert (H1 : disk file_mixed path_a
               = File ([line_info; line_bad] ++ line_blank
                       :: [line_error; line_bad]))
    by reflexivity.
  assert (H2 : blank line_blank = true) by reflexivity.
  assert (H3 : first_abort ([line_info; line_bad] ++ [line_error; line_bad])
               = None) by reflexivity.
  destruct (blank_line_skipped (disk file_mixed) path_a [line_info; line_bad]
              [line_error; line_bad] line_blank H1 H2)
    as (w1 & w2 & _ & _ & _ & Hw & Hclean).
  destruct (Hclean H3) as (Hpre & Hpost & Hload).
  split; [exact H1|]. split; [exact H2|]. split; [exact H3|].
  exists w1, w2. exact (conj Hpre (conj Hpost (conj Hload Hw))).
Defined.

(** C7: the levels 10 and 9 are printed in the order 9, 10, and the name
    "10" is before the name "9" in lexicographic order. *)
Lemma number_lines_not_lexicographic :
  display_summary path_a logs_10_9
  = ([Print (header path_a); Print rule;
      Print (level_line (ljust 10 (lit "9")) 1);
      Print (level_line (ljust 10 (lit "10")) 1);
      Print rule; Print (total_line 2)], inr tt)
  /\ str_ltb (lit "10") (lit "9") = true
  /\ str_ltb (lit "9") (lit "10") = false.
Proof. repeat split. Qed.

(** C7, as the code has it, on the collection of scenario A. *)
Lemma report_lines_sorted_witness :
  logs_a <> []
  /\ Forall printable_name logs_a
  /\ encodable (basename path_a) = true
  /\ exists items : list (str * nat),
       display_summary path_a logs_a
       = (Print (header path_a) :: Print rule :: map name_line items
          ++ [Print rule; Print (total_line 3)], inr tt)
       /\ StronglySorted name_lt items
       /\ NoDup (map fst items)
       /\ (forall s n, In (s, n) items <-> 0 < n /\ n = occurrences s logs_a)
       /\ (forall s n, In (s, n) items -> newline_free s ->
             name_line (s, n) = Print (level_line (ljust 10 s) n)
             /\ newline_free (level_line (ljust 10 s) n)).
Proof.
  assert (H1 : logs_a <> []) by discriminate.
  assert (H2 : Forall printable_name logs_a)
    by (repeat constructor; eexists; split; reflexivity).
  assert (H3 : encodable (basename path_a) = true) by reflexivity.
  exact (conj H1 (conj H2 (conj H3
    (report_lines_sorted path_a logs_a H1 H2 H3)))).
Defined.




(** Scenarios A and C of the specification, run through [main], and
    the text of the last line of scenario A. *)
Example scenario_a :
  main (disk file_a) path_a
  = ([Exists path_a; Open path_a; Print (header path_a); Print rule;
      Print (level_line (ljust 10 (lit "ERROR")) 1);
      Print (level_line (ljust 10 (lit "INFO")) 2);
      Print rule; Print (total_line 3)], inr tt).
Proof. reflexivity. Qed.

Example scenario_a_total : total_line 3 = lit "Total     : 3" ++ [10%N].
Proof. reflexivity. Qed.

Example scenario_a_lines :
  level_line (ljust 10 (lit "ERROR")) 1 = lit "ERROR     : 1"
  /\ level_line (ljust 10 (lit "INFO")) 2 = lit "INFO      : 2"
  /\ header path_a = [10; 128202]%N ++ lit " Log Level Summary for 'a.jsonl'".
Proof. repeat split. Qed.

Example scenario_c :
  main (disk [line_msg]) path_a
  = ([Exists path_a; Open path_a; Print (header path_a); Print rule;
      Print (level_line (ljust 10 unknown) 1);
      Print rule; Print (total_line 1)], inr tt).
Proof. reflexivity. Qed.

(** A level with a lone surrogate: the header and the rule are printed,
    the line of the level is not, and [main] prints the line of the
    unexpected error. *)
Example surrogate_level :
  _load_logs (disk [line_odd]) path_a = ([Open path_a], inr logs_odd)
  /\ display_summary path_a logs_odd
     = ([Print (header path_a); Print rule], inl UnicodeEncodeError)
  /\ main (disk [line_odd]) path_a
     = ([Exists path_a; Open path_a; Print (header path_a); Print rule;
         Print (unexpected UnicodeEncodeError)], inr tt).
Proof. repeat split. Qed.

(** X1 on the record [{"level": null}]. *)
Lemma failed_summary_prints_no_total_witness :
  display_summary path_a logs_null
  = ([Print (header path_a); Print rule], inl TypeError)
  /\ forall n, ~ In (Print (total_line n)) [Print (header path_a); Print rule].
Proof.
  assert (H1 : display_summary path_a logs_null
               = ([Print (header path_a); Print rule], inl TypeError))
    by reflexivity.
  split; [exact H1|].
  exact (proj2 (proj2 (proj2
    (failed_summary_prints_no_total path_a logs_null _ TypeError H1)))).
Defined.

(** X3 on a collection whose second record has a list as its level, and
    whose third record, no dict, is never reached. *)
Lemma first_bad_record_decides_witness :
  forallb countable [info] = true
  /\ countable (record "level" (JArray [])) = false
  /\ display_summary path_a logs_list = ([], inl TypeError).
Proof.
  assert (H1 : forallb countable [info] = true) by reflexivity.
  assert (H2 : countable (record "level" (JArray [])) = false) by reflexivity.
  exact (conj H1 (conj H2
    (first_bad_record_decides path_a [info] [JInt 42]
       (record "level" (JArray [])) H1 H2))).
Defined.

(** X5 on a disk whose file cannot be opened. *)
Lemma unreadable_file_reported_witness :
  disk_locked path_a = Unreadable
  /\ main disk_locked path_a
     = ([Exists path_a; Open path_a; Print (unexpected OSError)], inr tt).
Proof.
  assert (H1 : disk_locked path_a = Unreadable) by reflexivity.
  exact (conj H1 (proj2 (unreadable_file_reported disk_locked path_a H1))).
Defined.

(** X6 on the file of the line 42: the summary raises, and [main] prints
    the line of the unexpected error. *)
Lemma main_runs_loader_then_summary_witness :
  disk [line_bad; line_42] path_a = File [line_bad; line_42]
  /\ display_summary path_a (decoded [line_bad; line_42])
     = ([], inl AttributeError)
  /\ main (disk [line_bad; line_42]) path_a
     = ([Exists path_a; Open path_a; Print (warning 1);
         Print (unexpected AttributeError)], inr tt).
Proof.
  assert (H1 : disk [line_bad; line_42] path_a = File [line_bad; line_42])
    by reflexivity.
  assert (H2 : display_summary path_a (decoded [line_bad; line_42])
               = ([], inl AttributeError)) by reflexivity.
  exact (conj H1 (conj H2
    (main_runs_loader_then_summary (disk [line_bad; line_42]) path_a
       [line_bad; line_42] [] (inl AttributeError) H1 H2))).
Defined.

(** X7 on [file_mixed]: two warnings, two records and one blank line
    make five lines. *)
Lemma every_line_accounted_witness :
  disk file_mixed path_a = File file_mixed
  /\ first_abort file_mixed = None
  /\ exists ns,
       _load_logs (disk file_mixed) path_a
       = (Open path_a :: warnings ns, inr (decoded file_mixed))
       /\ List.length ns + List.length (decoded file_mixed)
          + List.length (filter blank file_mixed) = 5.
Proof.
  assert (H1 : disk file_mixed path_a = File file_mixed) by reflexivity.
  assert (H2 : first_abort file_mixed = None) by reflexivity.
  destruct (every_line_accounted (disk file_mixed) path_a file_mixed H1)
    as (ns & Hload & Hclean & _).
  destruct (Hclean H2) as (Hres & Hsum & _).
  split; [exact H1|]. split; [exact H2|]. exists ns.
  split; [exact (eq_trans Hload (f_equal (pair _) Hres)) | exact Hsum].
Defined.

(** X8 on [file_mixed]. *)
Lemma warnings_name_malformed_lines_witness :
  disk file_mixed path_a = File file_mixed
  /\ exists ns,
       _load_logs (disk file_mixed) path_a
       = (Open path_a :: warnings ns, loaded file_mixed)
       /\ StronglySorted lt ns
       /\ forall n, In (Print (warning n)) (warnings ns)
                    <-> 1 <= n /\ exists line,
                          nth_error file_mixed (n - 1) = Some line
                          /\ blank line = false
                          /\ json_loads line = inl JSONDecodeError
                          /\ first_abort (firstn n file_mixed) = None.
Proof.
  assert (H1 : disk file_mixed path_a = File file_mixed) by reflexivity.
  exact (conj H1
    (warnings_name_malformed_lines (disk file_mixed) path_a file_mixed H1)).
Defined.

(** X9 on the text of [file_b] followed by the text of two records. *)
Lemma load_concatenation_witness :
  (line_blank ++ line_bad = []
   \/ exists body, line_blank ++ line_bad = body ++ [10%N])
  /\ split_lines (line_blank ++ line_bad) = file_b
  /\ split_lines (line_bad ++ line_info) = [line_bad; line_info]
  /\ exists ns1 ns2 r1 r2,
       _load_logs (disk file_b) path_a = (Open path_a :: warnings ns1, r1)
       /\ _load_logs (disk [line_bad; line_info]) path_a
          = (Open path_a :: warnings ns2, r2)
       /\ _load_logs (disk (split_lines ((line_blank ++ line_bad)
                                         ++ line_bad ++ line_info))) path_a
          = (Open path_a
             :: warnings
                  (ns1 ++ match r1 with
                          | inr _ => map (Nat.add 2) ns2
                          | inl _ => []
                          end),
             match r1, r2 with
             | inl e, _ => inl e
             | inr _, inl e => inl e
             | inr logs1, inr logs2 => inr (logs1 ++ logs2)
             end).
Proof.
  assert (H0 : line_blank ++ line_bad = []
               \/ exists body, line_blank ++ line_bad = body ++ [10%N])
    by (right; exists (lit "  " ++ [10%N] ++ lit "not-json"); reflexivity).
  assert (H : disk (split_lines ((line_blank ++ line_bad)
                                 ++ line_bad ++ line_info)) path_a
              = File (split_lines ((line_blank ++ line_bad)
                                   ++ line_bad ++ line_info)))
    by reflexivity.
  assert (H1 : disk file_b path_a = File (split_lines (line_blank ++ line_bad)))
    by reflexivity.
  assert (H2 : disk [line_bad; line_info] path_a
               = File (split_lines (line_bad ++ line_info)))
    by reflexivity.
  exact (conj H0 (conj eq_refl (conj eq_refl
    (load_concatenation _ (disk file_b) (disk [line_bad; line_info]) path_a
       (line_blank ++ line_bad) (line_bad ++ line_info) H0 H H1 H2)))).
Defined.

(** X10 on a record without level beside a record of level 3. *)
Lemma mixed_levels_fail_sorting_witness :
  forallb countable logs_mixed = true
  /\ In (JObject [(lit "msg", JString (lit "no level field"))]) logs_mixed
  /\ In (JObject [(lit "level", JInt 3)]) logs_mixed
  /\ kind_of (level_of [(lit "msg", JString (lit "no level field"))])
     <> kind_of (level_of [(lit "level", JInt 3)])
  /\ display_summary path_a logs_mixed
     = ([Print (header path_a); Print rule], inl TypeError).
Proof.
  assert (H0 : forallb countable logs_mixed = true) by reflexivity.
  assert (H1 : In (JObject [(lit "msg", JString (lit "no level field"))])
                  logs_mixed) by (left; reflexivity).
  assert (H2 : In (JObject [(lit "level", JInt 3)]) logs_mixed)
    by (right; left; reflexivity).
  assert (H3 : kind_of (level_of [(lit "msg", JString (lit "no level field"))])
               <> kind_of (level_of [(lit "level", JInt 3)]))
    by discriminate.
  exact (conj H0 (conj H1 (conj H2 (conj H3
    (mixed_levels_fail_sorting path_a logs_mixed _ _ H0 H1 H2 H3))))).
Defined.

(** X11 on the collection of scenario A, read backwards. *)
Lemma report_ignores_record_order_witness :
  Permutation logs_a (rev logs_a)
  /\ Forall (fun log => level_name log <> None) logs_a
  /\ display_summary path_a logs_a = display_summary path_a (rev logs_a).
Proof.
  assert (H1 : Permutation logs_a (rev logs_a)) by apply Permutation_rev.
  assert (H2 : Forall (fun log => level_name log <> None) logs_a)
    by (repeat constructor; discriminate).
  exact (conj H1 (conj H2
    (report_ignores_record_order path_a logs_a (rev logs_a) H1 H2))).
Defined.

(** X12 on [logs/a.jsonl] and [a.jsonl]. *)
Lemma report_names_file_only_witness :
  no_slash (lit "a.jsonl")
  /\ display_summary (lit "logs" ++ 47%N :: lit "a.jsonl") logs_a
     = display_summary (lit "a.jsonl") logs_a.
Proof.
  assert (H1 : no_slash (lit "a.jsonl"))
    by (repeat constructor; discriminate).
  exact (conj H1
    (proj2 (report_names_file_only (lit "logs") (lit "a.jsonl") logs_a H1))).
Defined.


(** X14 on the collection of scenario A, cut after its first record. *)
Lemma counts_add_over_concatenation_witness :
  level_counts ([info] ++ [error; info]) = inr counts_a
  /\ exists c1 c2,
       level_counts [info] = inr c1
       /\ level_counts [error; info] = inr c2
       /\ total counts_a = total c1 + total c2
       /\ forall s, counter_get counts_a (JString s)
                    = counter_get c1 (JString s) + counter_get c2 (JString s).
Proof.
  assert (H1 : level_counts ([info] ++ [error; info]) = inr counts_a)
    by reflexivity.
  exact (conj H1
    (counts_add_over_concatenation [info] [error; info] counts_a H1)).
Defined.

(** X15 on the collection of scenario A. *)
Lemma counter_keys_come_from_records_witness :
  level_counts logs_a = inr counts_a
  /\ Forall (fun item => 0 < snd item /\ hashable (fst item) = true) counts_a
  /\ ForallOrdPairs (fun a b => key_eq (fst a) (fst b) = false) counts_a
  /\ forall k n, In (k, n) counts_a ->
       exists fields, In (JObject fields) logs_a /\ level_of fields = k.
Proof.
  assert (H1 : level_counts logs_a = inr counts_a) by reflexivity.
  exact (conj H1 (counter_keys_come_from_records logs_a counts_a H1)).
Defined.

(** X16 on the collection of scenario A. *)
Lemma summary_completes_iff_witness :
  logs_a <> []
  /\ ((exists t, display_summary path_a logs_a = (t, inr tt))
      <-> encodable (basename path_a) = true
          /\ exists k, (k = Text \/ k = Number)
                       /\ Forall (fun log => exists fields,
                                    log = JObject fields
                                    /\ kind_of (level_of fields) = k
                                    /\ printable_level log = true) logs_a).
Proof.
  assert (H1 : logs_a <> []) by discriminate.
  exact (conj H1 (summary_completes_iff path_a logs_a H1)).
Defined.

(** X17 on [file_mixed], whose second line is malformed. *)
Lemma malformed_line_warned_once_witness :
  disk file_mixed path_a
  = File ([line_info] ++ line_bad :: [line_blank; line_error; line_bad])
  /\ blank line_bad = false
  /\ json_loads line_bad = inl JSONDecodeError
  /\ first_abort ([line_info] ++ [line_blank; line_error; line_bad]) = None
  /\ exists w1 w2 : list event,
       load_lines 1 [line_info] [] = (w1, loaded [line_info])
       /\ load_lines 3 [line_blank; line_error; line_bad] []
          = (w2, loaded [line_blank; line_error; line_bad])
       /\ _load_logs (disk file_mixed) path_a
          = (Open path_a :: w1 ++ Print (warning 2) :: w2,
             inr (decoded [line_info]
                  ++ decoded [line_blank; line_error; line_bad]))
       /\ ~ In (Print (warning 2)) w1
       /\ ~ In (Print (warning 2)) w2.
Proof.
  assert (H1 : disk file_mixed path_a
               = File ([line_info] ++ line_bad
                       :: [line_blank; line_error; line_bad]))
    by reflexivity.
  assert (H2 : blank line_bad = false) by reflexivity.
  assert (H3 : json_loads line_bad = inl JSONDecodeError) by reflexivity.
  assert (H4 : first_abort ([line_info] ++ [line_blank; line_error; line_bad])
               = None) by reflexivity.
  destruct (malformed_line_warned_once (disk file_mixed) path_a [line_info]
              [line_blank; line_error; line_bad] line_bad H1 H2 H3)
    as (w1 & w2 & Hpre & Hpost & _ & Hw1 & Hw2 & Hclean).
  split; [exact H1|]. split; [exact H2|]. split; [exact H3|].
  split; [exact H4|]. exists w1, w2.
  exact (conj Hpre (conj Hpost (conj (Hclean H4) (conj Hw1 Hw2)))).
Defined.

(** X18 on [file_mixed]: two of its five lines decode. *)
Lemma loader_collects_valid_lines_witness :
  disk file_mixed path_a = File file_mixed
  /\ first_abort file_mixed = None
  /\ (exists w, _load_logs (disk file_mixed) path_a = (w, inr [info; error]))
  /\ List.length (decoded file_mixed) = 2.
Proof.
  assert (H1 : disk file_mixed path_a = File file_mixed) by reflexivity.
  assert (H2 : first_abort file_mixed = None) by reflexivity.
  destruct (loader_collects_valid_lines (disk file_mixed) path_a file_mixed
              H1 H2)
    as (Hload & Hlen & _).
  split; [exact H1|]. split; [exact H2|]. split; [exact Hload | exact Hlen].
Defined.
